(** * slop-shop, package [tools]: directive scanner and unified-diff engine

    A shallow embedding of [ExecuteTools], [parseDiff], [parseRange],
    [applyHunk], [applyFileChange] and [applyDiff], together with the parts
    of Go's [strings] and [strconv] packages these functions call.

    Conventions.
    - A Go [string] is a sequence of bytes: Rocq's [string].
    - A Go [int] is a 64-bit two's-complement integer: a [Z] kept in range
      by [wrap] after every arithmetic operation.
    - A Go [[]string] is a window on a backing array; see [slice].
    - A run-time panic is the outcome [Panic]; an [error] value is data. *)

From Stdlib Require Import ZArith List String Ascii Bool Lia.
From stdpp Require Import base option gmap strings.
Import ListNotations.

Local Open Scope string_scope.
Local Open Scope Z_scope.

(** ** Machine integers *)

Module GoInt.

Definition MaxInt : Z := 2 ^ 63 - 1.
Definition MinInt : Z := - 2 ^ 63.

(** Two's-complement reduction of an exact result to 64 bits. *)
Definition wrap (z : Z) : Z := (z + 2 ^ 63) mod 2 ^ 64 - 2 ^ 63.

Definition inRange (z : Z) : Prop := MinInt <= z <= MaxInt.

End GoInt.
Export GoInt.

(** ** Package [strings] *)

Module GoStrings.

Definition byte (c : ascii) : Z := Z.of_nat (nat_of_ascii c).

Fixpoint skipBytes (n : nat) (s : string) : string :=
  match n, s with
  | O, _ => s
  | S n', String _ s' => skipBytes n' s'
  | S _, EmptyString => EmptyString
  end.

Fixpoint rev_onto (s acc : string) : string :=
  match s with
  | EmptyString => acc
  | String c s' => rev_onto s' (String c acc)
  end.

Definition reverse (s : string) : string := rev_onto s EmptyString.

(** [strings.HasPrefix(s, prefix)] *)
Definition HasPrefix (s prefix : string) : bool := String.prefix prefix s.

(** [strings.TrimPrefix(s, prefix)] *)
Definition TrimPrefix (s prefix : string) : string :=
  if HasPrefix s prefix then skipBytes (String.length prefix) s else s.

(** [strings.HasSuffix(s, suffix)] *)
Definition HasSuffix (s suffix : string) : bool :=
  (String.length suffix <=? String.length s)%nat
  && String.eqb (skipBytes (String.length s - String.length suffix) s) suffix.

(** [strings.Join(elems, sep)] *)
Definition Join (elems : list string) (sep : string) : string :=
  String.concat sep elems.

(** *** Splitting

    Every call site of [Split] and [SplitN] in the package passes a
    one-byte literal separator (newline, comma or blank), so the separator
    is a byte here.  [cut] is [strings.Index] followed by the two slicings
    of [genSplit]'s loop body. *)

Fixpoint Count (s : string) (sep : ascii) : nat :=
  match s with
  | EmptyString => O
  | String c s' => if Ascii.eqb c sep then S (Count s' sep) else Count s' sep
  end.

Fixpoint cut (s : string) (sep : ascii) : option (string * string) :=
  match s with
  | EmptyString => None
  | String c s' =>
      if Ascii.eqb c sep then Some (EmptyString, s')
      else match cut s' sep with
           | Some (a, b) => Some (String c a, b)
           | None => None
           end
  end.

(** The loop of [genSplit]: at most [n] cuts, then the remainder. *)
Fixpoint genSplitLoop (n : nat) (s : string) (sep : ascii) : list string :=
  match n with
  | O => [s]
  | S n' =>
      match cut s sep with
      | None => [s]
      | Some (a, b) => a :: genSplitLoop n' b sep
      end
  end.

(** [strings.SplitN(s, sep, n)] *)
Definition SplitN (s : string) (sep : ascii) (n : Z) : list string :=
  if n =? 0 then []
  else
    let n := if n <? 0 then Z.of_nat (Count s sep) + 1 else n in
    let n := if n >? Z.of_nat (String.length s) + 1
             then Z.of_nat (String.length s) + 1 else n in
    genSplitLoop (Z.to_nat (n - 1)) s sep.

(** [strings.Split(s, sep)] is [SplitN(s, sep, -1)]. *)
Definition Split (s : string) (sep : ascii) : list string := SplitN s sep (-1).

(** *** White space

    [strings.TrimSpace] removes leading and trailing Unicode white space.
    On the byte level these are the six ASCII blanks and the UTF-8
    encodings of U+0085, U+00A0, U+1680, U+2000..U+200A, U+2028, U+2029,
    U+202F, U+205F and U+3000. *)

Definition asciiSpace (c : ascii) : bool :=
  let b := byte c in
  (b =? 9) || (b =? 10) || (b =? 11) || (b =? 12) || (b =? 13) || (b =? 32).

Definition space2 (c1 c2 : ascii) : bool :=
  (byte c1 =? 194) && ((byte c2 =? 133) || (byte c2 =? 160)).

Definition space3 (c1 c2 c3 : ascii) : bool :=
  let b1 := byte c1 in let b2 := byte c2 in let b3 := byte c3 in
  ((b1 =? 225) && (b2 =? 154) && (b3 =? 128))
  || ((b1 =? 226) && (b2 =? 128)
      && (((128 <=? b3) && (b3 <=? 138)) || (b3 =? 168) || (b3 =? 169) || (b3 =? 175)))
  || ((b1 =? 226) && (b2 =? 129) && (b3 =? 159))
  || ((b1 =? 227) && (b2 =? 128) && (b3 =? 128)).

(** [strings.TrimLeftFunc(s, unicode.IsSpace)] *)
Fixpoint trimLeft (s : string) : string :=
  match s with
  | EmptyString => EmptyString
  | String c1 s1 =>
      if asciiSpace c1 then trimLeft s1
      else match s1 with
           | EmptyString => s
           | String c2 s2 =>
               if space2 c1 c2 then trimLeft s2
               else match s2 with
                    | EmptyString => s
                    | String c3 s3 => if space3 c1 c2 c3 then trimLeft s3 else s
                    end
           end
  end.

(** The same scan on the reversed string: the last byte comes first. *)
Fixpoint trimLeftRev (s : string) : string :=
  match s with
  | EmptyString => EmptyString
  | String c1 s1 =>
      if asciiSpace c1 then trimLeftRev s1
      else match s1 with
           | EmptyString => s
           | String c2 s2 =>
               if space2 c2 c1 then trimLeftRev s2
               else match s2 with
                    | EmptyString => s
                    | String c3 s3 => if space3 c3 c2 c1 then trimLeftRev s3 else s
                    end
           end
  end.

(** [strings.TrimRightFunc(s, unicode.IsSpace)] *)
Definition trimRight (s : string) : string := reverse (trimLeftRev (reverse s)).

(** [strings.TrimSpace(s)] *)
Definition TrimSpace (s : string) : string := trimRight (trimLeft s).

End GoStrings.
Export GoStrings.

(** ** Package [strconv]

    [Atoi] follows the library's implementation: a fast path for inputs of
    fewer than 19 bytes and [ParseInt(s, 10, 0)] otherwise.  A byte that is
    no digit is reported as [ErrSyntax] with value 0; a value that does not
    fit is reported as [ErrRange] with the nearest representable value.
    [ParseUint] reads the bytes in order and leaves its loop with [ErrRange]
    at the first digit on which the accumulator overflows, without looking
    at the bytes after it. *)

Module GoStrconv.

Inductive NumError : Set := ErrSyntax | ErrRange.

Definition isDigit (c : ascii) : bool := (48 <=? byte c) && (byte c <=? 57).
Definition isSign (c : ascii) : bool := (byte c =? 43) || (byte c =? 45).
Definition isMinus (c : ascii) : bool := byte c =? 45.

Definition maxUint64 : Z := 2 ^ 64 - 1.
Definition cutoff : Z := maxUint64 / 10 + 1.

(** The loop of [ParseUint] for base 10 and 64 bits; [n] is a [uint64]. *)
Fixpoint parseUintLoop (s : string) (n : Z) : Z * option NumError :=
  match s with
  | EmptyString => (n, None)
  | String c s' =>
      if negb (isDigit c) then (0, Some ErrSyntax)
      else
        let d := byte c - 48 in
        if n >=? cutoff then (maxUint64, Some ErrRange)
        else
          let n := (n * 10) mod 2 ^ 64 in
          let n1 := (n + d) mod 2 ^ 64 in
          if (n1 <? n) || (n1 >? maxUint64) then (maxUint64, Some ErrRange)
          else parseUintLoop s' n1
  end.

Definition ParseUint (s : string) : Z * option NumError :=
  match s with
  | EmptyString => (0, Some ErrSyntax)
  | _ => parseUintLoop s 0
  end.

(** [strconv.ParseInt(s, 10, 0)] *)
Definition ParseInt (s : string) : Z * option NumError :=
  match s with
  | EmptyString => (0, Some ErrSyntax)
  | String c s' =>
      let neg := isMinus c in
      let (un, err) := ParseUint (if isSign c then s' else s) in
      match err with
      | Some ErrSyntax => (0, Some ErrSyntax)
      | _ =>
          if negb neg && (un >=? 2 ^ 63) then (2 ^ 63 - 1, Some ErrRange)
          else if neg && (un >? 2 ^ 63) then (- 2 ^ 63, Some ErrRange)
          else let n := wrap un in (if neg then wrap (- n) else n, None)
      end
  end.

(** The loop of [Atoi]'s fast path: [ch -= '0'] is byte arithmetic. *)
Fixpoint atoiLoop (s : string) (n : Z) : option Z :=
  match s with
  | EmptyString => Some n
  | String c s' =>
      let ch := (byte c - 48) mod 256 in
      if ch >? 9 then None else atoiLoop s' (wrap (n * 10 + ch))
  end.

(** [strconv.Atoi(s)]: the value and the error it returns. *)
Definition Atoi (s : string) : Z * option NumError :=
  let sLen := Z.of_nat (String.length s) in
  if (0 <? sLen) && (sLen <? 19) then
    match s with
    | EmptyString => (0, Some ErrSyntax)
    | String c s' =>
        if isSign c && (Z.of_nat (String.length s') <? 1) then (0, Some ErrSyntax)
        else
          match atoiLoop (if isSign c then s' else s) 0 with
          | None => (0, Some ErrSyntax)
          | Some n => (if isMinus c then wrap (- n) else n, None)
          end
    end
  else ParseInt s.

End GoStrconv.
Export GoStrconv.

(** ** The diff data model *)

(** [Type] is [" "], ["-"] or ["+"]; the parser never sets [LineNum]. *)
Record DiffLine : Set := mkDiffLine {
  LineType : string;
  Content : string;
  LineNum : Z
}.

Record DiffHunk : Set := mkDiffHunk {
  OldStart : Z;
  OldCount : Z;
  NewStart : Z;
  NewCount : Z;
  Lines : list DiffLine
}.

Record DiffChange : Set := mkDiffChange {
  FilePath : string;
  Hunks : list DiffHunk
}.

(** Go's [error] values.  [fmt.Errorf] flattens them to text; the
    constructors keep what the text is made from. *)
Inductive error : Set :=
| MismatchedPaths (openPath newPath : string)
    (* "mismatched file paths in diff: %s vs %s" *)
| NotExist (path : string)            (* os.ReadFile on a missing file *)
| PermissionDenied (path : string)    (* os.WriteFile on a protected file *)
| FailedToRead (cause : error)        (* "failed to read file: %v" *)
| FailedToWrite (cause : error)       (* "failed to write file: %v" *)
| FailedToParse (cause : error)       (* "failed to parse diff: %v" *)
| FailedToApply (path : string) (cause : error).
    (* "failed to apply change to %s: %v" *)

Definition comma : ascii := ascii_of_nat 44.
Definition blank : ascii := ascii_of_nat 32.
Definition newline : ascii := ascii_of_nat 10.

(** ** The diff-text parser *)

(** [parseRange]: both conversion errors are discarded. *)
Definition parseRange (rangeStr : string) : Z * Z :=
  let parts := Split rangeStr comma in
  let start := if (1 <=? length parts)%nat then fst (Atoi (nth 0 parts "")) else 0 in
  let count := if (2 <=? length parts)%nat then fst (Atoi (nth 1 parts "")) else 1 in
  (start, count).

(** The three loop variables of [parseDiff].  [currentChange] and
    [currentHunk] are pointers to values owned by the loop; [append] stores
    copies of them, so every stored hunk and change is a value. *)
Record parser : Set := mkParser {
  changes : list DiffChange;
  currentChange : option DiffChange;
  currentHunk : option DiffHunk
}.

(** [currentChange.Hunks = append(currentChange.Hunks, *currentHunk)] *)
Definition addHunk (c : DiffChange) (h : DiffHunk) : DiffChange :=
  mkDiffChange (FilePath c) (Hunks c ++ [h]).

(** The flush done at a file header and after the loop. *)
Definition flush (st : parser) : list DiffChange :=
  match currentChange st with
  | Some c =>
      changes st ++ [match currentHunk st with Some h => addHunk c h | None => c end]
  | None => changes st
  end.

Definition addLine (h : DiffHunk) (l : DiffLine) : DiffHunk :=
  mkDiffHunk (OldStart h) (OldCount h) (NewStart h) (NewCount h) (Lines h ++ [l]).

(** One iteration of the loop of [parseDiff]; [inr] is the early return. *)
Definition parseLine (st : parser) (line : string) : parser + error :=
  let line := TrimSpace line in
  if String.eqb line "" then inl st
  else if HasPrefix line "--- a/" then
    inl (mkParser (flush st)
                  (Some (mkDiffChange (TrimPrefix line "--- a/") []))
                  None)
  else if HasPrefix line "+++ b/" then
    let filePath := TrimPrefix line "+++ b/" in
    match currentChange st with
    | Some c =>
        if negb (String.eqb (FilePath c) filePath)
        then inr (MismatchedPaths (FilePath c) filePath)
        else inl st
    | None => inl st
    end
  else if HasPrefix line "@@" then
    let cc := match currentHunk st, currentChange st with
              | Some h, Some c => Some (addHunk c h)
              | _, c => c
              end in
    let parts := Split line blank in
    if (length parts <? 3)%nat then inl (mkParser (changes st) cc (currentHunk st))
    else
      let oldPart := TrimPrefix (nth 1 parts "") "-" in
      let newPart := TrimPrefix (nth 2 parts "") "+" in
      let '(oldStart, oldCount) := parseRange oldPart in
      let '(newStart, newCount) := parseRange newPart in
      inl (mkParser (changes st) cc
                    (Some (mkDiffHunk oldStart oldCount newStart newCount [])))
  else
    match currentHunk st with
    | Some h =>
        let '(lineType, content) :=
          if HasPrefix line "+" then ("+", TrimPrefix line "+")
          else if HasPrefix line "-" then ("-", TrimPrefix line "-")
          else (" ", line) in
        inl (mkParser (changes st) (currentChange st)
                      (Some (addLine h (mkDiffLine lineType content 0))))
    | None => inl st
    end.

Fixpoint parseLines (st : parser) (lines : list string) : parser + error :=
  match lines with
  | [] => inl st
  | line :: rest =>
      match parseLine st line with
      | inl st' => parseLines st' rest
      | inr e => inr e
      end
  end.

Definition parseStart : parser := mkParser [] None None.

(** [parseDiff]: the pair [(changes, err)] it returns. *)
Definition parseDiff (diffOutput : string) : list DiffChange * option error :=
  match parseLines parseStart (Split diffOutput newline) with
  | inl st => (flush st, None)
  | inr e => ([], Some e)
  end.

Definition LF : string := String newline "".

(** ** Slices and panics *)

Inductive result (A : Type) : Type :=
| Ok (a : A)
| Panic.
Arguments Ok {A} a.
Arguments Panic {A}.

Definition bind {A B : Type} (r : result A) (k : A -> result B) : result B :=
  match r with
  | Ok a => k a
  | Panic => Panic
  end.

Notation "'let!' x ':=' r 'in' k" := (bind r (fun x => k))
  (at level 10, x name, r at level 100, k at level 200).

(** A [[]string] whose window starts at the beginning of its backing array:
    [elems] are the [len] elements in the window, [spare] the rest of the
    array up to [cap].  [spare] keeps whatever an earlier, longer window left
    there. *)
Record slice : Set := mkSlice {
  elems : list string;
  spare : list string
}.

Definition len (s : slice) : Z := Z.of_nat (length (elems s)).
Definition cap (s : slice) : Z := Z.of_nat (length (elems s) + length (spare s)).

(** What [strings.Split] returns: an array exactly as long as the result. *)
Definition fresh (l : list string) : slice := mkSlice l [].

(** [s[:hi]]: legal up to the capacity, not only up to the length. *)
Definition sliceTo (s : slice) (hi : Z) : result slice :=
  if (0 <=? hi) && (hi <=? cap s)
  then let backing := (elems s ++ spare s)%list in
       Ok (mkSlice (firstn (Z.to_nat hi) backing) (skipn (Z.to_nat hi) backing))
  else Panic.

(** [s[lo:]], read as the operand of an [append]: legal up to the length. *)
Definition sliceFrom (s : slice) (lo : Z) : result (list string) :=
  if (0 <=? lo) && (lo <=? len s)
  then Ok (skipn (Z.to_nat lo) (elems s))
  else Panic.

Section Engine.

(** The run time's choice of extra capacity when [append] has to move a
    slice of capacity [c] to hold [n] elements. *)
Variable growslice : nat -> nat -> nat.

(** [filepath.Join(repoPath, path)]. *)
Variable filepathJoin : string -> string -> string.

(** [append(s, xs...)]: in place when the capacity suffices (the copy
    behaves as [memmove], so [xs] may come from the same array), otherwise
    into a new zeroed array. *)
Definition append (s : slice) (xs : list string) : slice :=
  let n := (length (elems s) + length xs)%nat in
  let c := (length (elems s) + length (spare s))%nat in
  if (n <=? c)%nat
  then mkSlice (elems s ++ xs) (skipn (length xs) (spare s))
  else mkSlice (elems s ++ xs) (repeat "" (growslice c n)).

(** ** Hunk application *)

Definition kept (l : DiffLine) : bool :=
  String.eqb (LineType l) "+" || String.eqb (LineType l) " ".

(** The [newLines] built by the second loop of [applyHunk]. *)
Definition newLinesOf (hunk : DiffHunk) : list string :=
  map Content (filter kept (Lines hunk)).

Definition applyHunk (lines : slice) (hunk : DiffHunk) : result slice :=
  let start := wrap (OldStart hunk - 1) in
  let! lines :=
    (if OldCount hunk >? 0 then
       let end_ := wrap (start + OldCount hunk) in
       let end_ := if end_ >? len lines then len lines else end_ in
       let! head := sliceTo lines start in
       let! tail := sliceFrom lines end_ in
       Ok (append head tail)
     else Ok lines) in
  let newLines := newLinesOf hunk in
  if Z.of_nat (length newLines) >? 0 then
    let! head := sliceTo lines start in
    let! tail := sliceFrom lines start in
    Ok (append head (newLines ++ tail))
  else Ok lines.

(** The loop of [applyFileChange], [for i := len(hunks) - 1; i >= 0; i--],
    with [n = i + 1]. *)
Fixpoint hunkLoop (hunks : list DiffHunk) (n : nat) (lines : slice) : result slice :=
  match n with
  | O => Ok lines
  | S i =>
      match nth_error hunks i with
      | Some hunk => let! lines := applyHunk lines hunk in hunkLoop hunks i lines
      | None => Panic
      end
  end.

(** Hunks applied one after the other, first to last. *)
Fixpoint applyInOrder (hunks : list DiffHunk) (lines : slice) : result slice :=
  match hunks with
  | [] => Ok lines
  | hunk :: rest => let! lines := applyHunk lines hunk in applyInOrder rest lines
  end.

(** The text [applyFileChange] writes back. *)
Definition joinLines (lines : slice) : string :=
  let newContent := Join (elems lines) LF in
  if negb (HasSuffix newContent LF) then newContent ++ LF else newContent.

(** The transformation between [os.ReadFile] and [os.WriteFile]. *)
Definition patch (content : string) (change : DiffChange) : result string :=
  let lines := fresh (Split content newline) in
  let! lines := hunkLoop (Hunks change) (length (Hunks change)) lines in
  Ok (joinLines lines).

(** ** The file system *)

Record fsys : Type := mkFsys {
  files : gmap string string;
  readOnly : gset string
}.

Definition ReadFile (fs : fsys) (name : string) : string + error :=
  match files fs !! name with
  | Some data => inl data
  | None => inr (NotExist name)
  end.

Definition WriteFile (fs : fsys) (name data : string) : fsys * option error :=
  if bool_decide (name ∈ readOnly fs)
  then (fs, Some (PermissionDenied name))
  else (mkFsys (<[name := data]> (files fs)) (readOnly fs), None).

(** [applyFileChange]: the file system it leaves, and the error it
    returns unless it panics. *)
Definition applyFileChange (change : DiffChange) (repoPath : string) (fs : fsys)
  : fsys * result (option error) :=
  let filePath := filepathJoin repoPath (FilePath change) in
  match ReadFile fs filePath with
  | inr err => (fs, Ok (Some (FailedToRead err)))
  | inl content =>
      match patch content change with
      | Panic => (fs, Panic)
      | Ok newContent =>
          match WriteFile fs filePath newContent with
          | (fs', Some err) => (fs', Ok (Some (FailedToWrite err)))
          | (fs', None) => (fs', Ok None)
          end
      end
  end.

(** The loop of [applyDiff]. *)
Fixpoint applyChanges (changes : list DiffChange) (repoPath : string) (fs : fsys)
  : fsys * result (option error) :=
  match changes with
  | [] => (fs, Ok None)
  | change :: rest =>
      match applyFileChange change repoPath fs with
      | (fs', Ok None) => applyChanges rest repoPath fs'
      | (fs', Ok (Some err)) => (fs', Ok (Some (FailedToApply (FilePath change) err)))
      | (fs', Panic) => (fs', Panic)
      end
  end.

Definition applyDiff (diffOutput repoPath : string) (fs : fsys)
  : fsys * result (option error) :=
  match parseDiff diffOutput with
  | (_, Some err) => (fs, Ok (Some (FailedToParse err)))
  | (changes, None) => applyChanges changes repoPath fs
  end.

End Engine.

(** ** The directive scanner *)

(** One constructor per handler [ExecuteTools] can call, with the
    arguments it passes (the [repoPath] argument is the same in all).  What
    [ExecuteTools] prints on the terminal is left out. *)
Inductive call : Set :=
| ExecuteCommand (command : string)
| ReadFileContent (filePath : string)
| ListDirectory (dir : string)
| TestCommand (command : string)
| SearchFiles (pattern directory : string)
| GenerateDiff (description : string)
| ApplyDiffTool (diffContent : string)
| CreateFile (filePath content : string).

Section Scanner.

(** Whatever the handlers act on (processes, files, the model server), and
    what a handler does to it: the text it returns and the new state. *)
Variable World : Type.
Variable handler : call -> World -> string * World.

(** The variables of [ExecuteTools]: [toolCount], the [results] builder,
    the world, and a log of the handler calls made so far.  [toolCount]
    grows by at most one per line, so it stays far below [MaxInt]. *)
Record scanner : Type := mkScanner {
  toolCount : nat;
  results : string;
  world : World;
  invoked : list call
}.

Definition count (st : scanner) : scanner :=
  mkScanner (S (toolCount st)) (results st) (world st) (invoked st).

(** Call a handler and write its block, headed by [label], to [results]. *)
Definition run (st : scanner) (c : call) (label : string) : scanner :=
  let '(result, w) := handler c (world st) in
  mkScanner (toolCount st)
            (results st ++ label ++ LF ++ result ++ LF)
            w
            (invoked st ++ [c]).

(** The inner loop of the [CREATE_FILE] branch, on [lines[toolCount:]]. *)
Fixpoint collectContent (lines : list string) : list string :=
  match lines with
  | [] => []
  | l :: rest =>
      if String.eqb (TrimSpace l) "END_FILE" then [] else l :: collectContent rest
  end.

(** The eight [if] statements of the loop body, in source order. *)

Definition onRunCommand (line : string) (st : scanner) : scanner :=
  if HasPrefix line "RUN_COMMAND:" then
    let st := count st in
    let command := TrimSpace (TrimPrefix line "RUN_COMMAND:") in
    run st (ExecuteCommand command) ("RUN_COMMAND: " ++ command)
  else st.

Definition onReadFile (line : string) (st : scanner) : scanner :=
  if HasPrefix line "READ_FILE:" then
    let st := count st in
    let filePath := TrimSpace (TrimPrefix line "READ_FILE:") in
    run st (ReadFileContent filePath) ("READ_FILE: " ++ filePath)
  else st.

Definition onListDir (line : string) (st : scanner) : scanner :=
  if HasPrefix line "LIST_DIR:" then
    let st := count st in
    let dir := TrimSpace (TrimPrefix line "LIST_DIR:") in
    run st (ListDirectory dir) ("LIST_DIR: " ++ dir)
  else st.

Definition onTestCommand (line : string) (st : scanner) : scanner :=
  if HasPrefix line "TEST_COMMAND:" then
    let st := count st in
    let command := TrimSpace (TrimPrefix line "TEST_COMMAND:") in
    run st (TestCommand command) ("TEST_COMMAND: " ++ command)
  else st.

Definition onSearchFiles (line : string) (st : scanner) : scanner :=
  if HasPrefix line "SEARCH_FILES:" then
    let st := count st in
    let parts := SplitN (TrimPrefix line "SEARCH_FILES:") blank 2 in
    if (length parts =? 2)%nat then
      let pattern := TrimSpace (nth 0 parts "") in
      let directory := TrimSpace (nth 1 parts "") in
      run st (SearchFiles pattern directory)
          ("SEARCH_FILES: " ++ pattern ++ " in " ++ directory)
    else st
  else st.

Definition onGenerateDiff (line : string) (st : scanner) : scanner :=
  if HasPrefix line "GENERATE_DIFF:" then
    let st := count st in
    let description := TrimSpace (TrimPrefix line "GENERATE_DIFF:") in
    run st (GenerateDiff description) ("GENERATE_DIFF: " ++ description)
  else st.

Definition onApplyDiff (line : string) (st : scanner) : scanner :=
  if HasPrefix line "APPLY_DIFF:" then
    let st := count st in
    let diffContent := TrimSpace (TrimPrefix line "APPLY_DIFF:") in
    run st (ApplyDiffTool diffContent) "APPLY_DIFF: Applied"
  else st.

Definition onCreateFile (lines : list string) (line : string) (st : scanner) : scanner :=
  if HasPrefix line "CREATE_FILE:" then
    let st := count st in
    let filePath := TrimSpace (TrimPrefix line "CREATE_FILE:") in
    let contentLines := collectContent (skipn (toolCount st) lines) in
    let content := Join contentLines LF in
    run st (CreateFile filePath content) ("CREATE_FILE: " ++ filePath)
  else st.

(** One iteration of [for _, line := range lines]. *)
Definition scanLine (lines : list string) (st : scanner) (line : string) : scanner :=
  let line := TrimSpace line in
  if String.eqb line "" then st
  else
    onCreateFile lines line
      (onApplyDiff line
        (onGenerateDiff line
          (onSearchFiles line
            (onTestCommand line
              (onListDir line
                (onReadFile line
                  (onRunCommand line st))))))).

Definition banner : string :=
  "Tool Execution Results:" ++ LF ++ "=====================" ++ LF ++ LF.

Definition scan (response : string) (w : World) : scanner :=
  let lines := Split response newline in
  fold_left (scanLine lines) lines (mkScanner 0 banner w []).

(** [ExecuteTools]: the transcript it returns and the world it leaves. *)
Definition ExecuteTools (response : string) (w : World) : string * World :=
  let st := scan response w in (results st, world st).

End Scanner.

(** The trivial world, with handlers that answer [""]: enough to observe
    which handler calls the scanner makes, in which order and with which
    arguments.  The scanner never looks at a handler's answer. *)
Definition silent (c : call) (w : unit) : string * unit := ("", w).

Definition callsOf (response : string) : list call :=
  invoked unit (scan unit silent response tt).


(** ** The other functions of the package *)

(** [isTextFile] (and [repo.IsTextFile], which has the same body): the loop
    [for i := 0; i < checkSize; i++] with [n] iterations left at index [i];
    [content[i]] panics outside the content. *)
Fixpoint nulScan (content : string) (i n : nat) : result bool :=
  match n with
  | O => Ok true
  | S n' =>
      match String.get i content with
      | None => Panic
      | Some c => if byte c =? 0 then Ok false else nulScan content (S i) n'
      end
  end.

Definition isTextFile (content : string) : result bool :=
  let checkSize := Z.of_nat (String.length content) in
  let checkSize := if checkSize >? 1024 then 1024 else checkSize in
  nulScan content 0 (Z.to_nat checkSize).

(** The text of an [error], as [%v] prints it.  The two errors of package
    [os] are [*fs.PathError] values of the operation [open]. *)
Fixpoint errorText (e : error) : string :=
  match e with
  | MismatchedPaths a b => "mismatched file paths in diff: " ++ a ++ " vs " ++ b
  | NotExist path => "open " ++ path ++ ": no such file or directory"
  | PermissionDenied path => "open " ++ path ++ ": permission denied"
  | FailedToRead cause => "failed to read file: " ++ errorText cause
  | FailedToWrite cause => "failed to write file: " ++ errorText cause
  | FailedToParse cause => "failed to parse diff: " ++ errorText cause
  | FailedToApply path cause =>
      "failed to apply change to " ++ path ++ ": " ++ errorText cause
  end.

(** [applyDiffTool], the handler of [APPLY_DIFF]. *)
Definition applyDiffTool
    (growslice : nat -> nat -> nat) (filepathJoin : string -> string -> string)
    (diffContent repoPath : string) (fs : fsys) : fsys * result string :=
  match applyDiff growslice filepathJoin diffContent repoPath fs with
  | (fs', Ok (Some err)) => (fs', Ok ("Error applying diff: " ++ errorText err))
  | (fs', Ok None) => (fs', Ok "Diff applied successfully to the repository")
  | (fs', Panic) => (fs', Panic)
  end.

(** ** The spinner *)

Record Spinner : Set := mkSpinner {
  frames : list string;
  index : Z
}.

Definition NewSpinner : Spinner :=
  mkSpinner ["⠋"; "⠙"; "⠹"; "⠸"; "⠼"; "⠴"; "⠦"; "⠧"; "⠇"; "⠏"] 0.

(** [Next]: the frame returned and the spinner after the call.  Indexing
    outside [frames] panics, and so does [%] by zero; Go's [%] truncates. *)
Definition Next (s : Spinner) : result (string * Spinner) :=
  if (0 <=? index s) && (index s <? Z.of_nat (length (frames s))) then
    let frame := nth (Z.to_nat (index s)) (frames s) "" in
    if Z.of_nat (length (frames s)) =? 0 then Panic
    else Ok (frame,
             mkSpinner (frames s)
                       (Z.rem (wrap (index s + 1)) (Z.of_nat (length (frames s)))))
  else Panic.

(** ** Package [repo]: exclusion patterns *)

Fixpoint takeBytes (n : nat) (s : string) : string :=
  match n, s with
  | O, _ => EmptyString
  | S n', String c s' => String c (takeBytes n' s')
  | S _, EmptyString => EmptyString
  end.

(** [strings.TrimSuffix(s, suffix)] *)
Definition TrimSuffix (s suffix : string) : string :=
  if HasSuffix s suffix
  then takeBytes (String.length s - String.length suffix) s
  else s.

(** [strings.Contains(s, substr)] *)
Fixpoint Contains (s substr : string) : bool :=
  HasPrefix s substr
  || match s with
     | EmptyString => false
     | String _ s' => Contains s' substr
     end.

(** [ShouldExclude]: the loop over [patterns], with its early returns. *)
Fixpoint ShouldExclude (path : string) (patterns : list string) : bool :=
  match patterns with
  | [] => false
  | pattern :: rest =>
      if String.eqb pattern "" then ShouldExclude path rest
      else if Contains pattern "*" then
        if HasSuffix pattern "*" then
          let prefix := TrimSuffix pattern "*" in
          if HasPrefix path prefix then true else ShouldExclude path rest
        else ShouldExclude path rest
      else if Contains path pattern then true
      else ShouldExclude path rest
  end.

(** The value of [-exclude] when the flag is not given, split at commas
    and trimmed as [main] does. *)
Definition defaultExclude : list string :=
  map TrimSpace
      (Split ".git,.jj,node_modules,vendor,*.exe,*.dll,*.so,*.dylib,*.bin,.crush" comma).

(** * Reference definitions and sample inputs *)

(** The hand-computed effect of a hunk: [count] lines replaced by [new]
    at index [start]. *)
Definition splice (l : list string) (start count : nat) (new : list string)
  : list string :=
  (firstn start l ++ new ++ skipn (start + count) l)%list.

(** A token that is a decimal number: an optional sign, then one or more
    digits. *)
Fixpoint allDigits (s : string) : bool :=
  match s with
  | EmptyString => true
  | String c s' => isDigit c && allDigits s'
  end.

Definition wellFormedNumber (tok : string) : bool :=
  match tok with
  | EmptyString => false
  | String c rest =>
      if isSign c then negb (String.eqb rest "") && allDigits rest
      else allDigits tok
  end.

Definition hasByte (c : ascii) (s : string) : bool := negb (Nat.eqb (Count s c) 0).

(** The diff of the two-hunk example: line 1 [a] becomes [A], line 3 [c]
    becomes [C]. *)
Definition twoHunkDiff : string :=
  "--- a/f.txt" ++ LF ++ "+++ b/f.txt" ++ LF ++
  "@@ -1,1 +1,1 @@" ++ LF ++ "-a" ++ LF ++ "+A" ++ LF ++
  "@@ -3,1 +3,1 @@" ++ LF ++ "-c" ++ LF ++ "+C" ++ LF.

Definition hunkA : DiffHunk :=
  mkDiffHunk 1 1 1 1 [mkDiffLine "-" "a" 0; mkDiffLine "+" "A" 0].
Definition hunkC : DiffHunk :=
  mkDiffHunk 3 1 3 1 [mkDiffLine "-" "c" 0; mkDiffLine "+" "C" 0].

(** The diff of the single-line insertion. *)
Definition insertDiff : string :=
  "--- a/notes.txt" ++ LF ++ "+++ b/notes.txt" ++ LF ++
  "@@ -1,0 +1,1 @@" ++ LF ++ "+new line".

(** Hunks whose header numbers do not fit the file they are applied to. *)
Definition hunkAtZero : DiffHunk := mkDiffHunk 0 5 1 0 [].
Definition hunkPastEnd : DiffHunk := mkDiffHunk 10 2 10 0 [].
Definition hunkHugeCount : DiffHunk := mkDiffHunk 2 MaxInt 2 0 [].
Definition hunkWrapping : DiffHunk :=
  mkDiffHunk 3 9223372036854775806 3 1 [mkDiffLine "+" "x" 0].

(** A diff whose two file headers disagree. *)
Definition mismatchDiff : string :=
  "--- a/x.txt" ++ LF ++ "+++ b/y.txt" ++ LF ++ "@@ -1,1 +1,1 @@" ++ LF ++ "-a" ++ LF ++ "+b".

(** A diff for three files, of which the second does not exist. *)
Definition threeFileDiff : string :=
  "--- a/a.txt" ++ LF ++ "+++ b/a.txt" ++ LF ++ "@@ -1,0 +1,1 @@" ++ LF ++ "+hi" ++ LF ++
  "--- a/missing.txt" ++ LF ++ "+++ b/missing.txt" ++ LF ++ "@@ -1,0 +1,1 @@" ++ LF ++ "+x" ++ LF ++
  "--- a/c.txt" ++ LF ++ "+++ b/c.txt" ++ LF ++ "@@ -1,0 +1,1 @@" ++ LF ++ "+y".

Definition insertAt1 (path text : string) : DiffChange :=
  mkDiffChange path [mkDiffHunk 1 0 1 1 [mkDiffLine "+" text 0]].

Definition twoFiles : fsys :=
  mkFsys (<["repo/a.txt" := ""]> {[ "repo/c.txt" := "" ]}) ∅.

(** Responses for the scanner. *)
Definition proseThenCreate : string :=
  "I will create the file." ++ LF ++ "CREATE_FILE: a.txt" ++ LF ++ "hello" ++ LF ++ "END_FILE".

Definition createFirst : string :=
  "CREATE_FILE: a.txt" ++ LF ++ "hello" ++ LF ++ "" ++ LF ++ "  world" ++ LF ++ "END_FILE".

Definition createScript : string :=
  "CREATE_FILE: run.sh" ++ LF ++ "RUN_COMMAND: ls" ++ LF ++ "END_FILE".

(** The directive kinds, in the order in which [ExecuteTools] tests their
    prefixes. *)
Inductive kind : Set :=
| RunCommand | ReadFileKind | ListDir | TestCommandKind
| SearchFilesKind | GenerateDiffKind | ApplyDiff | CreateFileKind.

Definition prefixOf (k : kind) : string :=
  match k with
  | RunCommand => "RUN_COMMAND:"
  | ReadFileKind => "READ_FILE:"
  | ListDir => "LIST_DIR:"
  | TestCommandKind => "TEST_COMMAND:"
  | SearchFilesKind => "SEARCH_FILES:"
  | GenerateDiffKind => "GENERATE_DIFF:"
  | ApplyDiff => "APPLY_DIFF:"
  | CreateFileKind => "CREATE_FILE:"
  end.

Definition kinds : list kind :=
  [RunCommand; ReadFileKind; ListDir; TestCommandKind;
   SearchFilesKind; GenerateDiffKind; ApplyDiff; CreateFileKind].

(** The kind of a trimmed line: the first prefix it starts with. *)
Definition classify (line : string) : option kind :=
  find (fun k => HasPrefix line (prefixOf k)) kinds.

Definition isDirective (line : string) : bool :=
  match classify line with Some _ => true | None => false end.

(** The lines of a response that carry a directive. *)
Definition directiveLines (ls : list string) : list string :=
  List.filter (fun l => isDirective (TrimSpace l)) ls.

Section Dispatch.

Variable World : Type.
Variable handler : call -> World -> string * World.

(** The branch of [ExecuteTools] that belongs to a kind. *)
Definition branch (k : kind) (lines : list string) (line : string)
  : scanner World -> scanner World :=
  match k with
  | RunCommand => onRunCommand World handler line
  | ReadFileKind => onReadFile World handler line
  | ListDir => onListDir World handler line
  | TestCommandKind => onTestCommand World handler line
  | SearchFilesKind => onSearchFiles World handler line
  | GenerateDiffKind => onGenerateDiff World handler line
  | ApplyDiff => onApplyDiff World handler line
  | CreateFileKind => onCreateFile World handler lines line
  end.

(** A scanner that classifies the line once and runs one branch. *)
Definition dispatchLine (lines : list string) (st : scanner World) (line : string)
  : scanner World :=
  let line := TrimSpace line in
  match classify line with
  | Some k => branch k lines line st
  | None => st
  end.

End Dispatch.

(** [parseDiff] on text already split into lines. *)
Definition parseDiffLines (lines : list string) : list DiffChange * option error :=
  match parseLines parseStart lines with
  | inl st => (flush st, None)
  | inr e => ([], Some e)
  end.

(** A line that opens a change, and the path it names. *)
Definition isOldFileLine (line : string) : bool :=
  HasPrefix (TrimSpace line) "--- a/".

Definition oldFilePaths (lines : list string) : list string :=
  map (fun line => TrimPrefix (TrimSpace line) "--- a/")
      (List.filter isOldFileLine lines).

(** What every parsed line looks like: no line number, one of the three
    types, and a context line is not empty. *)
Definition lineOk (l : DiffLine) : Prop :=
  LineNum l = 0 /\
  (LineType l = "+" \/ LineType l = "-" \/ (LineType l = " " /\ Content l <> "")).

Definition hunkOk (h : DiffHunk) : Prop := Forall lineOk (Lines h).
Definition changeOk (c : DiffChange) : Prop := Forall hunkOk (Hunks c).

Definition parserOk (st : parser) : Prop :=
  Forall changeOk (changes st) /\
  (forall c, currentChange st = Some c -> changeOk c) /\
  (forall h, currentHunk st = Some h -> hunkOk h).

(** A pattern [ShouldExclude] can match with: not empty, and with no star
    or with a star at its end. *)
Definition livePattern (pattern : string) : bool :=
  negb (String.eqb pattern "")
  && (negb (Contains pattern "*") || HasSuffix pattern "*").

(** The files some change of a list names, as [applyFileChange] joins them. *)
Definition targets (filepathJoin : string -> string -> string)
    (repoPath : string) (cs : list DiffChange) : list string :=
  map (fun c => filepathJoin repoPath (FilePath c)) cs.

(** What a diff application keeps of a file system: the set of files, the
    protection, the protected files, and the files it does not touch. *)
Definition kept_by (fs fs' : fsys) (touched : list string) : Prop :=
  dom (files fs') = dom (files fs) /\
  readOnly fs' = readOnly fs /\
  (forall q, q ∈ readOnly fs -> files fs' !! q = files fs !! q) /\
  (forall q, ~ In q touched -> files fs' !! q = files fs !! q).

(** The number a string of decimal digits denotes. *)
Fixpoint valueOf (s : string) : Z :=
  match s with
  | EmptyString => 0
  | String c rest => (byte c - 48) * 10 ^ Z.of_nat (String.length rest) + valueOf rest
  end.

(** A string of 1 to 18 decimal digits. *)
Definition decimal (s : string) : bool :=
  allDigits s && (0 <? String.length s)%nat && (String.length s <? 19)%nat.

(** The text of a hunk header with its four numbers, and whatever follows
    them on the line. *)
Definition hunkHeader (a1 a2 b1 b2 tail : string) : string :=
  "@@" ++ " " ++ ("-" ++ a1 ++ "," ++ a2) ++ " " ++ ("+" ++ b1 ++ "," ++ b2) ++ tail.

(** What the hunk-header branch of [parseDiff] leaves in [currentChange]. *)
Definition stored (st : parser) : option DiffChange :=
  match currentHunk st, currentChange st with
  | Some h, Some c => Some (addHunk c h)
  | _, c => c
  end.

(** A diff whose only hunk is open when a line [@@] follows. *)
Definition openHunkDiff : string :=
  "--- a/f.txt" ++ LF ++ "+++ b/f.txt" ++ LF ++ "@@ -1,0 +1,1 @@" ++ LF ++ "+x".

(** [n] bytes that are not zero. *)
Fixpoint padding (n : nat) : string :=
  match n with
  | O => EmptyString
  | S n' => String "a" (padding n')
  end.

(** The byte 0. *)
Definition nul : ascii := ascii_of_nat 0.

(** [n] calls of [Next], one after the other: the frames they return and
    the spinner left. *)
Fixpoint spinFrames (n : nat) (s : Spinner) : result (list string * Spinner) :=
  match n with
  | O => Ok ([], s)
  | S n' =>
      let! first := Next s in
      let! others := spinFrames n' (snd first) in
      Ok (fst first :: fst others, snd others)
  end.

(** Concrete choices for the two parameters of the engine. *)
Definition exactFit (c n : nat) : nat := 0%nat.
Definition slashJoin (dir name : string) : string := dir ++ "/" ++ name.

(** * Facts about the model *)

(** ** Integers *)

Lemma wrap_inRange z : inRange (wrap z).
Proof.
  unfold inRange, wrap, MinInt, MaxInt.
  pose proof (Z.mod_pos_bound (z + 2 ^ 63) (2 ^ 64) ltac:(lia)). lia.
Qed.

Lemma wrap_id z : inRange z -> wrap z = z.
Proof.
  unfold inRange, wrap, MinInt, MaxInt. intros H.
  rewrite Z.mod_small by lia. lia.
Qed.

(** ** Slices *)

Lemma sliceTo_within s hi :
  0 <= hi <= len s ->
  exists s', sliceTo s hi = Ok s' /\ elems s' = firstn (Z.to_nat hi) (elems s).
Proof.
  intros H. unfold sliceTo, cap, len in *.
  destruct (Z.leb_spec 0 hi); [|lia].
  destruct (Z.leb_spec hi (Z.of_nat (length (elems s) + length (spare s)))); [|lia].
  eexists; split; [reflexivity|]. simpl.
  rewrite firstn_app.
  replace (Z.to_nat hi - length (elems s))%nat with 0%nat by lia.
  simpl. apply app_nil_r.
Qed.

Lemma sliceFrom_within s lo :
  0 <= lo <= len s -> sliceFrom s lo = Ok (skipn (Z.to_nat lo) (elems s)).
Proof.
  intros H. unfold sliceFrom.
  destruct (Z.leb_spec 0 lo); [|lia].
  destruct (Z.leb_spec lo (len s)); [reflexivity|lia].
Qed.

Lemma sliceTo_outside s hi : hi < 0 \/ cap s < hi -> sliceTo s hi = Panic.
Proof.
  intros H. unfold sliceTo.
  destruct (Z.leb_spec 0 hi); [|reflexivity].
  destruct (Z.leb_spec hi (cap s)); [lia|reflexivity].
Qed.

Section EngineFacts.

Variable growslice : nat -> nat -> nat.

Lemma elems_append s xs : elems (append growslice s xs) = (elems s ++ xs)%list.
Proof. unfold append. destruct (_ <=? _)%nat; reflexivity. Qed.

Lemma removal_ok lines start count :
  0 <= start <= len lines ->
  (0 < count -> start + count <= MaxInt) ->
  exists mid,
    (if count >? 0
     then let! head := sliceTo lines start in
          let! tail := sliceFrom lines
                         (if wrap (start + count) >? len lines
                          then len lines else wrap (start + count)) in
          Ok (append growslice head tail)
     else Ok lines) = Ok mid /\
    elems mid = (firstn (Z.to_nat start) (elems lines)
                 ++ skipn (Z.to_nat start + Z.to_nat count) (elems lines))%list.
Proof.
  intros Hstart Hend.
  destruct (Z.gtb_spec count 0) as [Hpos|Hnon].
  - rewrite (wrap_id (start + count))
      by (unfold inRange, MinInt, MaxInt in *; lia).
    destruct (sliceTo_within lines start ltac:(lia)) as (head & -> & Hhead).
    cbn [bind].
    destruct (Z.gtb_spec (start + count) (len lines)) as [Hover|Hin].
    + rewrite sliceFrom_within by lia. cbn [bind].
      eexists; split; [reflexivity|].
      rewrite elems_append, Hhead. f_equal.
      unfold len in *. rewrite !skipn_all2 by lia. reflexivity.
    + rewrite sliceFrom_within by lia. cbn [bind].
      eexists; split; [reflexivity|].
      rewrite elems_append, Hhead. do 2 f_equal. lia.
  - exists lines; split; [reflexivity|].
    replace (Z.to_nat count) with 0%nat by lia.
    rewrite Nat.add_0_r. symmetry. apply firstn_skipn.
Qed.

Lemma applyHunk_splice lines hunk :
  OldStart hunk <= MaxInt ->
  1 <= OldStart hunk <= len lines + 1 ->
  (0 < OldCount hunk -> OldStart hunk - 1 + OldCount hunk <= MaxInt) ->
  exists s,
    applyHunk growslice lines hunk = Ok s /\
    elems s = splice (elems lines) (Z.to_nat (OldStart hunk - 1))
                     (Z.to_nat (OldCount hunk)) (newLinesOf hunk).
Proof.
  intros Hlen Hstart Hend. unfold applyHunk, splice. cbv zeta.
  rewrite (wrap_id (OldStart hunk - 1)) by (unfold inRange, MinInt, MaxInt in *; lia).
  destruct (removal_ok lines (OldStart hunk - 1) (OldCount hunk) ltac:(lia) Hend)
    as (mid & -> & Hmid).
  cbn [bind].
  set (start := OldStart hunk - 1) in *.
  assert (Hmidlen : (Z.to_nat start <= length (elems mid))%nat).
  { rewrite Hmid, length_app, length_firstn. unfold len in *. lia. }
  destruct (Z.gtb_spec (Z.of_nat (length (newLinesOf hunk))) 0) as [Hnew|Hnone].
  - destruct (sliceTo_within mid start ltac:(unfold len; lia)) as (head & -> & Hhead).
    cbn [bind]. rewrite sliceFrom_within by (unfold len; lia). cbn [bind].
    eexists; split; [reflexivity|].
    rewrite elems_append, Hhead, Hmid.
    rewrite firstn_app, skipn_app, length_firstn.
    replace (Z.to_nat start - Init.Nat.min (Z.to_nat start) (length (elems lines)))%nat
      with 0%nat by (unfold len in *; lia).
    rewrite firstn_firstn, Nat.min_id. simpl.
    rewrite app_nil_r.
    rewrite (skipn_all2 (firstn _ _)) by (rewrite length_firstn; lia).
    reflexivity.
  - exists mid; split; [reflexivity|].
    destruct (newLinesOf hunk); [|simpl in Hnone; lia].
    exact Hmid.
Qed.

Lemma applyHunk_outside lines hunk :
  wrap (OldStart hunk - 1) < 0 \/ cap lines < wrap (OldStart hunk - 1) ->
  0 < OldCount hunk \/ newLinesOf hunk <> [] ->
  applyHunk growslice lines hunk = Panic.
Proof.
  intros Hout Hwork. unfold applyHunk. cbv zeta.
  destruct (Z.gtb_spec (OldCount hunk) 0) as [Hpos|Hnon].
  - rewrite sliceTo_outside by exact Hout. reflexivity.
  - cbn [bind].
    destruct Hwork as [Hpos|Hnew]; [lia|].
    destruct (Z.gtb_spec (Z.of_nat (length (newLinesOf hunk))) 0) as [_|Hnone].
    + rewrite sliceTo_outside by exact Hout. reflexivity.
    + destruct (newLinesOf hunk); [congruence|simpl in Hnone; lia].
Qed.

(** ** The hunk loop *)

Lemma hunkLoop_prefix hunks more n lines :
  (n <= length hunks)%nat ->
  hunkLoop growslice (hunks ++ more) n lines = hunkLoop growslice hunks n lines.
Proof.
  revert lines. induction n as [|i IH]; intros lines Hn; [reflexivity|].
  simpl. rewrite nth_error_app1 by lia.
  destruct (nth_error hunks i); [|reflexivity].
  destruct (applyHunk growslice lines d); [|reflexivity].
  simpl. apply IH. lia.
Qed.

Lemma hunkLoop_last_first hunks lines :
  hunkLoop growslice hunks (length hunks) lines
  = applyInOrder growslice (rev hunks) lines.
Proof.
  revert lines. induction hunks as [|hunk hunks IH] using rev_ind; intros lines.
  - reflexivity.
  - rewrite length_app, rev_unit. simpl length.
    replace (length hunks + 1)%nat with (S (length hunks)) by lia.
    simpl. rewrite nth_error_app2 by lia. rewrite Nat.sub_diag. simpl.
    destruct (applyHunk growslice lines hunk); [|reflexivity].
    simpl. rewrite hunkLoop_prefix by lia. apply IH.
Qed.

Lemma splice_middle (A R C new : list string) :
  splice (A ++ R ++ C) (length A) (length R) new = (A ++ new ++ C)%list.
Proof.
  unfold splice.
  rewrite take_app_length.
  rewrite (app_assoc A R C), <- length_app, drop_app_length.
  reflexivity.
Qed.

End EngineFacts.

(** ** Strings *)

Lemma length_append (s t : string) :
  String.length (s ++ t) = (String.length s + String.length t)%nat.
Proof. induction s as [|c s IH]; simpl; [reflexivity|]. now rewrite IH. Qed.

Lemma skipBytes_append (s t : string) : skipBytes (String.length s) (s ++ t) = t.
Proof. induction s as [|c s IH]; simpl; [now destruct t|exact IH]. Qed.

Lemma HasSuffix_append (s t : string) : HasSuffix (s ++ t) t = true.
Proof.
  unfold HasSuffix. rewrite length_append.
  replace (String.length s + String.length t - String.length t)%nat
    with (String.length s) by lia.
  rewrite skipBytes_append, String.eqb_refl.
  rewrite andb_true_r. apply Nat.leb_le. lia.
Qed.

Lemma joinLines_ends_in_newline (lines : slice) : HasSuffix (joinLines lines) LF = true.
Proof.
  unfold joinLines.
  destruct (HasSuffix (Join (elems lines) LF) LF) eqn:E; simpl.
  - exact E.
  - apply HasSuffix_append.
Qed.

(** ** Splitting *)

Lemma Count_le_length s sep : (Count s sep <= String.length s)%nat.
Proof.
  induction s as [|c s IH]; simpl; [lia|].
  destruct (Ascii.eqb c sep); lia.
Qed.

Lemma Split_genSplitLoop s sep : Split s sep = genSplitLoop (Count s sep) s sep.
Proof.
  unfold Split, SplitN. pose proof (Count_le_length s sep).
  change (-1 =? 0) with false. change (-1 <? 0) with true. cbv iota.
  destruct (Z.gtb_spec (Z.of_nat (Count s sep) + 1) (Z.of_nat (String.length s) + 1));
    [lia|].
  f_equal. lia.
Qed.

Lemma cut_absent s sep : Count s sep = 0%nat -> cut s sep = None.
Proof.
  induction s as [|c s IH]; simpl; [reflexivity|].
  destruct (Ascii.eqb c sep); [discriminate|].
  intros H. now rewrite IH.
Qed.

Lemma cut_first a b sep :
  Count a sep = 0%nat -> cut (a ++ String sep b) sep = Some (a, b).
Proof.
  induction a as [|c a IH]; simpl.
  - now rewrite Ascii.eqb_refl.
  - destruct (Ascii.eqb c sep); [discriminate|].
    intros H. now rewrite IH.
Qed.

Lemma Count_append a b sep : Count (a ++ b) sep = (Count a sep + Count b sep)%nat.
Proof.
  induction a as [|c a IH]; simpl; [reflexivity|].
  destruct (Ascii.eqb c sep); simpl; now rewrite IH.
Qed.

Lemma Split_absent s sep : Count s sep = 0%nat -> Split s sep = [s].
Proof. intros H. rewrite Split_genSplitLoop, H. reflexivity. Qed.

Lemma Split_first a b sep :
  Count a sep = 0%nat -> Split (a ++ String sep b) sep = a :: Split b sep.
Proof.
  intros H. rewrite !Split_genSplitLoop, Count_append, H. simpl.
  rewrite Ascii.eqb_refl. simpl. now rewrite cut_first.
Qed.

Lemma hasByte_false c s : hasByte c s = false -> Count s c = 0%nat.
Proof.
  unfold hasByte. destruct (Nat.eqb_spec (Count s c) 0); [trivial|discriminate].
Qed.

(** ** Numbers *)

Lemma byte_digit_test c : ((byte c - 48) mod 256 >? 9) = negb (isDigit c).
Proof. destruct c as [[] [] [] [] [] [] [] []]; reflexivity. Qed.

Lemma atoiLoop_malformed s n : allDigits s = false -> atoiLoop s n = None.
Proof.
  revert n. induction s as [|c s IH]; intros n; simpl; [discriminate|].
  rewrite byte_digit_test.
  destruct (isDigit c); simpl; [apply IH|reflexivity].
Qed.

Lemma digit_value c : isDigit c = true -> 0 <= byte c - 48 <= 9.
Proof.
  unfold isDigit. intros H. apply andb_prop in H as [H1 H2].
  apply Z.leb_le in H1, H2. lia.
Qed.

(** Before its twentieth digit the accumulator of [ParseUint] cannot
    overflow, so a malformed byte among the first twenty is reached. *)
Lemma parseUintLoop_malformed s n k :
  0 <= n < 10 ^ Z.of_nat k ->
  (k + String.length s <= 20)%nat ->
  allDigits s = false ->
  parseUintLoop s n = (0, Some ErrSyntax).
Proof.
  revert n k. induction s as [|c s IH]; intros n k Hn Hlen Hbad; [discriminate|].
  simpl in *. destruct (isDigit c) eqn:Hc; simpl in *; [|reflexivity].
  pose proof (digit_value c Hc) as Hd.
  assert (Hs : (1 <= String.length s)%nat) by (destruct s; [discriminate|simpl; lia]).
  assert (Hk : 10 ^ Z.of_nat k <= 10 ^ 18) by (apply Z.pow_le_mono_r; lia).
  assert (Hnext : 10 ^ Z.of_nat (S k) = 10 * 10 ^ Z.of_nat k)
    by (rewrite Nat2Z.inj_succ; apply Z.pow_succ_r; lia).
  change (10 ^ 18) with 1000000000000000000 in Hk.
  unfold cutoff, maxUint64.
  change (2 ^ 64) with 18446744073709551616.
  change ((18446744073709551616 - 1) / 10 + 1) with 1844674407370955162.
  destruct (Z.geb_spec n 1844674407370955162); [lia|].
  rewrite (Z.mod_small (n * 10)) by lia.
  rewrite (Z.mod_small (n * 10 + (byte c - 48))) by lia.
  destruct (Z.ltb_spec (n * 10 + (byte c - 48)) (n * 10)); [lia|].
  destruct (Z.gtb_spec (n * 10 + (byte c - 48)) (18446744073709551616 - 1)); [lia|].
  simpl. apply (IH _ (S k)); [lia|lia|exact Hbad].
Qed.

Lemma Atoi_malformed tok :
  wellFormedNumber tok = false ->
  (String.length tok <= 20)%nat ->
  Atoi tok = (0, Some ErrSyntax).
Proof.
  intros Hbad Hlen. unfold Atoi.
  destruct tok as [|c rest]; [reflexivity|].
  cbn [wellFormedNumber] in Hbad.
  destruct ((0 <? Z.of_nat (String.length (String c rest)))
            && (Z.of_nat (String.length (String c rest)) <? 19)).
  - destruct (isSign c).
    + destruct rest as [|d rest]; [reflexivity|].
      cbn [String.eqb negb andb] in Hbad.
      change (Z.of_nat (String.length (String d rest)) <? 1) with
        (Z.of_nat (S (String.length rest)) <? 1).
      destruct (Z.ltb_spec (Z.of_nat (S (String.length rest))) 1); [lia|].
      cbn [andb]. now rewrite atoiLoop_malformed.
    + cbn [andb]. now rewrite atoiLoop_malformed.
  - unfold ParseInt, ParseUint.
    destruct (isSign c).
    + destruct rest as [|d rest]; [reflexivity|].
      cbn [String.eqb negb andb] in Hbad.
      rewrite (parseUintLoop_malformed _ 0 0); [reflexivity|lia|simpl in *; lia|exact Hbad].
    + rewrite (parseUintLoop_malformed _ 0 0); [reflexivity|lia|simpl in *; lia|exact Hbad].
Qed.

Lemma parseUintLoop_syntax s n v :
  parseUintLoop s n = (v, Some ErrSyntax) -> v = 0.
Proof.
  revert n. induction s as [|c s IH]; intros n; simpl; [discriminate|].
  destruct (isDigit c); simpl; [|congruence].
  destruct (n >=? cutoff); [discriminate|].
  destruct (_ || _); [discriminate|apply IH].
Qed.

Lemma Atoi_syntax tok : snd (Atoi tok) = Some ErrSyntax -> fst (Atoi tok) = 0.
Proof.
  unfold Atoi.
  destruct (_ && _).
  - destruct tok as [|c rest]; [reflexivity|].
    destruct (isSign c && _); [reflexivity|].
    destruct (atoiLoop _ 0); [discriminate|reflexivity].
  - unfold ParseInt. destruct tok as [|c rest]; [reflexivity|].
    destruct (ParseUint _) as [un [[]|]]; [reflexivity| |].
    + destruct (_ && _); [discriminate|]. destruct (_ && _); discriminate.
    + destruct (_ && _); [discriminate|]. destruct (_ && _); discriminate.
Qed.

(** ** The parser *)

Lemma parseLines_app st before after :
  parseLines st (before ++ after) =
  match parseLines st before with
  | inl st' => parseLines st' after
  | inr e => inr e
  end.
Proof.
  revert st. induction before as [|line before IH]; intros st; simpl; [reflexivity|].
  destruct (parseLine st line); [apply IH|reflexivity].
Qed.

Lemma new_file_marker_line line :
  HasPrefix line "+++ b/" = true ->
  String.eqb line "" = false /\ HasPrefix line "--- a/" = false.
Proof.
  unfold HasPrefix. destruct line as [|c line]; [discriminate|].
  destruct (ascii_dec "+"%char c) as [Heq|Hne].
  - subst c. intros _. split; reflexivity.
  - cbn [String.prefix]. destruct (ascii_dec "+"%char c); [contradiction|discriminate].
Qed.

(** ** The diff-apply loop *)

Section ApplyFacts.

Variable growslice : nat -> nat -> nat.
Variable filepathJoin : string -> string -> string.

(** In this file system a call that returns an error has written nothing. *)
Lemma applyFileChange_error change repoPath fs fs' err :
  applyFileChange growslice filepathJoin change repoPath fs = (fs', Ok (Some err)) ->
  fs' = fs.
Proof.
  unfold applyFileChange, WriteFile.
  destruct (ReadFile fs _); [|congruence].
  destruct (patch growslice s change); [|congruence].
  destruct (bool_decide _); congruence.
Qed.

Lemma applyChanges_app done rest repoPath fs :
  applyChanges growslice filepathJoin (done ++ rest) repoPath fs =
  match applyChanges growslice filepathJoin done repoPath fs with
  | (fs', Ok None) => applyChanges growslice filepathJoin rest repoPath fs'
  | stopped => stopped
  end.
Proof.
  revert fs. induction done as [|change done IH]; intros fs; simpl.
  - now destruct (applyChanges growslice filepathJoin rest repoPath fs).
  - destruct (applyFileChange growslice filepathJoin change repoPath fs) as [fs' [[err|]|]];
      [reflexivity|apply IH|reflexivity].
Qed.

End ApplyFacts.

(** * The claims *)

(** ** Hunk application *)

(** C1.  Parsing the two-hunk diff gives one change for [f.txt] with the
    hunks [hunkA] (old 1,1: -a +A) and [hunkC] (old 3,1: -c +C); applying it
    to the lines [a b c d] gives [A b C d], and to the file text
    [a\nb\nc\nd\n] the text [A\nb\nC\nd\n]. *)
Theorem two_hunks_post_image (growslice : nat -> nat -> nat) :
  parseDiff twoHunkDiff = ([mkDiffChange "f.txt" [hunkA; hunkC]], None) /\
  hunkLoop growslice [hunkA; hunkC] 2 (fresh ["a"; "b"; "c"; "d"])
    = Ok (fresh ["A"; "b"; "C"; "d"]) /\
  patch growslice ("a" ++ LF ++ "b" ++ LF ++ "c" ++ LF ++ "d" ++ LF)
        (mkDiffChange "f.txt" [hunkA; hunkC])
    = Ok ("A" ++ LF ++ "b" ++ LF ++ "C" ++ LF ++ "d" ++ LF).
Proof. repeat split; vm_compute; reflexivity. Qed.

(** C2.  Parsing the insertion diff ([@@ -1,0 +1,1 @@], [+new line]) gives
    one change for [notes.txt]; applied to the empty text it gives exactly
    [new line\n], and [applyFileChange] stores that text in the file.  In
    general the text written is the lines joined by newlines, with one more
    newline exactly when the joined text does not end in one. *)
Theorem insert_into_empty_file
    (growslice : nat -> nat -> nat) (filepathJoin : string -> string -> string)
    (repoPath : string) (fs : fsys) :
  files fs !! filepathJoin repoPath "notes.txt" = Some "" ->
  filepathJoin repoPath "notes.txt" ∉ readOnly fs ->
  exists change,
    parseDiff insertDiff = ([change], None) /\
    patch growslice "" change = Ok ("new line" ++ LF) /\
    applyFileChange growslice filepathJoin change repoPath fs
      = (mkFsys (<[filepathJoin repoPath "notes.txt" := "new line" ++ LF]> (files fs))
                (readOnly fs),
         Ok None) /\
    (forall lines : slice,
        let joined := Join (elems lines) LF in
        joinLines lines = (if HasSuffix joined LF then joined else joined ++ LF) /\
        HasSuffix (joinLines lines) LF = true).
Proof.
  intros Hfile Hrw.
  exists (mkDiffChange "notes.txt"
            [mkDiffHunk 1 0 1 1 [mkDiffLine "+" "new line" 0]]).
  split; [vm_compute; reflexivity|].
  split; [vm_compute; reflexivity|].
  split.
  - unfold applyFileChange, ReadFile. cbn [FilePath]. rewrite Hfile.
    change (patch growslice "" _) with (Ok ("new line" ++ LF)).
    unfold WriteFile. rewrite bool_decide_eq_false_2 by exact Hrw. reflexivity.
  - intros lines joined. split.
    + unfold joinLines. fold joined. now destruct (HasSuffix joined LF).
    + apply joinLines_ends_in_newline.
Qed.

Lemma insert_into_empty_file_witness :
  exists change,
    parseDiff insertDiff = ([change], None) /\
    applyFileChange exactFit slashJoin change "repo"
                    (mkFsys {[ "repo/notes.txt" := "" ]} ∅)
      = (mkFsys (<["repo/notes.txt" := "new line" ++ LF]> {[ "repo/notes.txt" := "" ]}) ∅,
         Ok None).
Proof.
  destruct (insert_into_empty_file exactFit slashJoin "repo"
              (mkFsys {[ "repo/notes.txt" := "" ]} ∅))
    as (change & Hparse & _ & Happly & _).
  - reflexivity.
  - simpl. apply not_elem_of_empty.
  - exists change. split; [exact Hparse|exact Happly].
Defined.

(** C3.  For every change, the text [applyFileChange] computes is that of
    its hunks applied one after the other from the last to the first.  For
    two hunks on disjoint, ascending ranges of a pre-image
    [A ++ R1 ++ B ++ R2 ++ C], the first replacing [R1] and the second [R2],
    the result is [A ++ new1 ++ B ++ new2 ++ C]: the later hunk's edit does
    not move the place (index OldStart - 1) where the earlier one lands. *)
Theorem hunks_applied_in_reverse (growslice : nat -> nat -> nat) :
  (forall content change,
      patch growslice content change
      = let! lines := applyInOrder growslice (rev (Hunks change))
                                   (fresh (Split content newline)) in
        Ok (joinLines lines)) /\
  (forall (A R1 B R2 C behind : list string) (h1 h2 : DiffHunk),
      Z.of_nat (length (A ++ R1 ++ B ++ R2 ++ C)) < MaxInt ->
      OldStart h1 = Z.of_nat (length A) + 1 ->
      OldCount h1 = Z.of_nat (length R1) ->
      OldStart h2 = Z.of_nat (length (A ++ R1 ++ B)) + 1 ->
      OldCount h2 = Z.of_nat (length R2) ->
      exists s,
        hunkLoop growslice [h1; h2] 2 (mkSlice (A ++ R1 ++ B ++ R2 ++ C) behind) = Ok s /\
        elems s = (A ++ newLinesOf h1 ++ B ++ newLinesOf h2 ++ C)%list).
Proof.
  split.
  { intros content change. unfold patch. now rewrite hunkLoop_last_first. }
  intros A R1 B R2 C behind h1 h2 Hlen Hs1 Hc1 Hs2 Hc2.
  rewrite !length_app in Hlen. rewrite !length_app in Hs2.
  change 2%nat with (length [h1; h2]). rewrite hunkLoop_last_first.
  cbn [rev app applyInOrder].
  set (lines := mkSlice _ _).
  destruct (applyHunk_splice growslice lines h2) as (mid & -> & Hmid).
  { lia. }
  { subst lines. unfold len. cbn [elems]. rewrite !length_app. lia. }
  { lia. }
  cbn [bind].
  subst lines. cbn [elems] in Hmid.
  replace (Z.to_nat (OldStart h2 - 1)) with (length (A ++ R1 ++ B)) in Hmid
    by (rewrite !length_app; lia).
  replace (Z.to_nat (OldCount h2)) with (length R2) in Hmid by lia.
  rewrite (app_assoc A), (app_assoc (A ++ R1)), <- (app_assoc A) in Hmid.
  rewrite splice_middle in Hmid.
  destruct (applyHunk_splice growslice mid h1) as (s & -> & Hs).
  { lia. }
  { unfold len. rewrite Hmid, !length_app. lia. }
  { lia. }
  cbn [bind]. exists s. split; [reflexivity|].
  rewrite Hs, Hmid.
  replace (Z.to_nat (OldStart h1 - 1)) with (length A) by lia.
  replace (Z.to_nat (OldCount h1)) with (length R1) by lia.
  rewrite <- !app_assoc, splice_middle. reflexivity.
Qed.

Lemma hunks_applied_in_reverse_witness :
  exists s,
    hunkLoop exactFit [hunkA; hunkC] 2 (mkSlice ([] ++ ["a"] ++ ["b"] ++ ["c"] ++ ["d"]) [])
      = Ok s /\
    elems s = ([] ++ newLinesOf hunkA ++ ["b"] ++ newLinesOf hunkC ++ ["d"])%list.
Proof.
  destruct (hunks_applied_in_reverse exactFit) as [_ Hland].
  apply (Hland [] ["a"] ["b"] ["c"] ["d"] [] hunkA hunkC).
  - vm_compute. reflexivity.
  - reflexivity.
  - reflexivity.
  - reflexivity.
  - reflexivity.
Defined.

(** C4, as stated, fails: a hunk whose count exceeds the lines left makes
    [applyHunk] panic when its start is 0, when its start lies beyond a
    freshly split file, and when start + count wraps around. *)
Lemma applyHunk_clamp_counterexample :
  (OldCount hunkAtZero > len (fresh ["a"; "b"]) - (OldStart hunkAtZero - 1) /\
   applyHunk exactFit (fresh ["a"; "b"]) hunkAtZero = Panic) /\
  (OldCount hunkPastEnd > len (fresh ["a"; "b"; "c"]) - (OldStart hunkPastEnd - 1) /\
   applyHunk exactFit (fresh ["a"; "b"; "c"]) hunkPastEnd = Panic) /\
  (OldCount hunkHugeCount > len (fresh ["a"; "b"]) - (OldStart hunkHugeCount - 1) /\
   applyHunk exactFit (fresh ["a"; "b"]) hunkHugeCount = Panic).
Proof. repeat split; vm_compute; reflexivity. Qed.

(** C4, amended.  For a hunk that starts inside the sequence or right after
    it (1 <= OldStart <= len + 1), whose count exceeds the lines left from
    there and whose end bound start + count fits an [int], [applyHunk]
    clamps the end bound to the length and returns: the result is the lines
    before the start followed by the hunk's added and context lines. *)
Theorem applyHunk_clamps_at_end_of_file
    (growslice : nat -> nat -> nat) (lines : slice) (hunk : DiffHunk) :
  1 <= OldStart hunk <= len lines + 1 ->
  OldCount hunk > len lines - (OldStart hunk - 1) ->
  OldStart hunk - 1 + OldCount hunk <= MaxInt ->
  exists s,
    applyHunk growslice lines hunk = Ok s /\
    elems s = (firstn (Z.to_nat (OldStart hunk - 1)) (elems lines) ++ newLinesOf hunk)%list.
Proof.
  intros Hstart Hcount Hfit.
  destruct (applyHunk_splice growslice lines hunk) as (s & Hs & Hel);
    [lia | exact Hstart | intros _; exact Hfit |].
  exists s. split; [exact Hs|].
  rewrite Hel. unfold splice, len in *.
  rewrite skipn_all2 by lia. now rewrite app_nil_r.
Qed.

Lemma applyHunk_clamps_at_end_of_file_witness :
  exists s,
    applyHunk exactFit (fresh ["a"; "b"; "c"])
              (mkDiffHunk 2 7 2 1 [mkDiffLine " " "k" 0]) = Ok s /\
    elems s = (firstn (Z.to_nat (2 - 1)) ["a"; "b"; "c"] ++ ["k"])%list.
Proof.
  apply (applyHunk_clamps_at_end_of_file exactFit (fresh ["a"; "b"; "c"])
           (mkDiffHunk 2 7 2 1 [mkDiffLine " " "k" 0])).
  - vm_compute. split; discriminate.
  - vm_compute. reflexivity.
  - vm_compute. discriminate.
Defined.

(** A start past the length but inside the capacity is no panic in Go:
    [lines[:start]] brings back what an earlier removal left in the array. *)
Example applyHunk_within_capacity :
  applyHunk exactFit (mkSlice ["b"; "c"] ["c"]) (mkDiffHunk 4 1 4 0 [])
  = Ok (mkSlice ["b"; "c"; "c"] []).
Proof. reflexivity. Qed.

(** C10, as stated, fails: the start bound alone does not make [applyHunk]
    total.  With OldStart = 3 on a three-line file the start is in range, but
    start + count wraps to a negative end bound, which is never clamped. *)
Lemma applyHunk_start_bound_counterexample :
  1 <= OldStart hunkWrapping <= len (fresh ["a"; "b"; "c"]) + 1 /\
  applyHunk exactFit (fresh ["a"; "b"; "c"]) hunkWrapping = Panic.
Proof. split; [split|]; vm_compute; solve [discriminate | reflexivity]. Qed.

(** C10, amended.  Let [start] be OldStart - 1 as the code computes it.
    - If 1 <= OldStart <= len + 1 and, for a hunk that removes lines, the end
      bound start + OldCount fits an [int], then [applyHunk] makes no
      out-of-range access: it returns the hand-computed splice.
    - Otherwise [start] is negative or past the end of the sequence, and a
      hunk that removes or inserts anything panics as soon as [start] is
      negative or beyond the capacity (for a freshly split file: the length).
    - [parseRange] gives OldStart = 0 for a malformed start token, and such
      a hunk panics on every sequence. *)
Theorem applyHunk_start_bound
    (growslice : nat -> nat -> nat) (lines : slice) (hunk : DiffHunk) :
  inRange (OldStart hunk) ->
  len lines < MaxInt ->
  (1 <= OldStart hunk <= len lines + 1 ->
   (0 < OldCount hunk -> OldStart hunk - 1 + OldCount hunk <= MaxInt) ->
   exists s,
     applyHunk growslice lines hunk = Ok s /\
     elems s = splice (elems lines) (Z.to_nat (OldStart hunk - 1))
                      (Z.to_nat (OldCount hunk)) (newLinesOf hunk)) /\
  (~ (1 <= OldStart hunk <= len lines + 1) ->
   (wrap (OldStart hunk - 1) < 0 \/ len lines < wrap (OldStart hunk - 1)) /\
   (wrap (OldStart hunk - 1) < 0 \/ cap lines < wrap (OldStart hunk - 1) ->
    0 < OldCount hunk \/ newLinesOf hunk <> [] ->
    applyHunk growslice lines hunk = Panic)) /\
  (parseRange "x" = (0, 1) /\
   forall newStart newCount body,
     applyHunk growslice lines (mkDiffHunk 0 1 newStart newCount body) = Panic).
Proof.
  intros [Hlo Hhi] Hlen. split; [|split].
  - intros Hstart Hfit. apply applyHunk_splice; assumption.
  - intros Hout. split; [|apply applyHunk_outside].
    destruct (Z.eq_dec (OldStart hunk) MinInt) as [Hmin|Hmin].
    + right. rewrite Hmin.
      replace (wrap (MinInt - 1)) with MaxInt by (vm_compute; reflexivity).
      exact Hlen.
    + rewrite wrap_id by (unfold inRange; lia). lia.
  - split; [vm_compute; reflexivity|].
    intros newStart newCount body. apply applyHunk_outside.
    + left. vm_compute. reflexivity.
    + left. simpl. lia.
Qed.

Lemma applyHunk_start_bound_witness :
  (exists s,
     applyHunk exactFit (fresh ["a"; "b"; "c"]) hunkC = Ok s /\
     elems s = splice ["a"; "b"; "c"] (Z.to_nat (3 - 1)) (Z.to_nat 1) ["C"]) /\
  applyHunk exactFit (fresh ["a"; "b"]) hunkAtZero = Panic.
Proof.
  split.
  - apply (applyHunk_start_bound exactFit (fresh ["a"; "b"; "c"]) hunkC).
    + vm_compute. split; discriminate.
    + vm_compute. reflexivity.
    + vm_compute. split; discriminate.
    + intros _. vm_compute. discriminate.
  - apply (applyHunk_start_bound exactFit (fresh ["a"; "b"]) hunkAtZero).
    + vm_compute. split; discriminate.
    + vm_compute. reflexivity.
    + vm_compute. intros [H _]. apply H. reflexivity.
    + left. vm_compute. reflexivity.
    + left. vm_compute. reflexivity.
Defined.

(** ** The parser *)

(** C5.  When the lines before a [+++ b/<path>] line parse without error and
    leave a change open whose path differs from [<path>], [parseDiff]
    returns no changes and the path-mismatch error naming both paths. *)
Theorem mismatched_paths_fail
    (diffOutput line : string) (before after : list string)
    (st : parser) (change : DiffChange) :
  Split diffOutput newline = (before ++ line :: after)%list ->
  parseLines parseStart before = inl st ->
  currentChange st = Some change ->
  HasPrefix (TrimSpace line) "+++ b/" = true ->
  TrimPrefix (TrimSpace line) "+++ b/" <> FilePath change ->
  parseDiff diffOutput
  = ([], Some (MismatchedPaths (FilePath change)
                               (TrimPrefix (TrimSpace line) "+++ b/"))).
Proof.
  intros Hsplit Hbefore Hopen Hmarker Hdiff.
  unfold parseDiff. rewrite Hsplit, parseLines_app, Hbefore. simpl.
  unfold parseLine.
  destruct (new_file_marker_line _ Hmarker) as [-> ->].
  rewrite Hmarker, Hopen.
  destruct (String.eqb_spec (FilePath change) (TrimPrefix (TrimSpace line) "+++ b/"))
    as [Heq|_]; [congruence|].
  reflexivity.
Qed.

Lemma mismatched_paths_fail_witness :
  parseDiff mismatchDiff = ([], Some (MismatchedPaths "x.txt" "y.txt")).
Proof.
  apply (mismatched_paths_fail mismatchDiff "+++ b/y.txt" ["--- a/x.txt"]
           ["@@ -1,1 +1,1 @@"; "-a"; "+b"]
           (mkParser [] (Some (mkDiffChange "x.txt" [])) None)
           (mkDiffChange "x.txt" [])).
  - vm_compute. reflexivity.
  - vm_compute. reflexivity.
  - reflexivity.
  - vm_compute. reflexivity.
  - vm_compute. discriminate.
Defined.

(** ** Diff-apply dispatch *)

(** C9.  [applyDiff] returns a parse error wrapped, with the file system
    untouched.  When the changes before some change apply and that change
    returns an error, [applyDiff] returns that error wrapped with the
    change's path, at once: the file system is the one the earlier changes
    wrote and the failing call left, and nothing depends on the changes
    after it. *)
Theorem applyDiff_fail_fast
    (growslice : nat -> nat -> nat) (filepathJoin : string -> string -> string)
    (diffOutput repoPath : string) (fs : fsys) :
  (forall err,
      snd (parseDiff diffOutput) = Some err ->
      applyDiff growslice filepathJoin diffOutput repoPath fs
      = (fs, Ok (Some (FailedToParse err)))) /\
  (forall done change rest fs1 fs2 err,
      parseDiff diffOutput = ((done ++ change :: rest)%list, None) ->
      applyChanges growslice filepathJoin done repoPath fs = (fs1, Ok None) ->
      applyFileChange growslice filepathJoin change repoPath fs1 = (fs2, Ok (Some err)) ->
      applyDiff growslice filepathJoin diffOutput repoPath fs
      = (fs2, Ok (Some (FailedToApply (FilePath change) err)))).
Proof.
  split.
  - intros err Herr. unfold applyDiff.
    destruct (parseDiff diffOutput) as [cs e]. simpl in Herr. now subst e.
  - intros done change rest fs1 fs2 err Hparse Hdone Hfail.
    unfold applyDiff. rewrite Hparse, applyChanges_app, Hdone.
    simpl. now rewrite Hfail.
Qed.

Lemma applyDiff_fail_fast_witness :
  applyDiff exactFit slashJoin mismatchDiff "repo" twoFiles
  = (twoFiles, Ok (Some (FailedToParse (MismatchedPaths "x.txt" "y.txt")))) /\
  applyDiff exactFit slashJoin threeFileDiff "repo" twoFiles
  = (mkFsys (<["repo/a.txt" := "hi" ++ LF]> (files twoFiles)) ∅,
     Ok (Some (FailedToApply "missing.txt" (FailedToRead (NotExist "repo/missing.txt"))))).
Proof.
  split.
  - apply (applyDiff_fail_fast exactFit slashJoin mismatchDiff "repo" twoFiles).
    vm_compute. reflexivity.
  - destruct (applyDiff_fail_fast exactFit slashJoin threeFileDiff "repo" twoFiles)
      as [_ Hstop].
    apply (Hstop [insertAt1 "a.txt" "hi"] (insertAt1 "missing.txt" "x")
                 [insertAt1 "c.txt" "y"]
                 (mkFsys (<["repo/a.txt" := "hi" ++ LF]> (files twoFiles)) ∅)).
    + vm_compute. reflexivity.
    + vm_compute. reflexivity.
    + vm_compute. reflexivity.
Defined.

(** C6, as stated, fails: a malformed token whose first twenty digits
    overflow 64 bits does not parse as zero.  [ParseUint] stops with a range
    error at the twentieth digit, before it sees the [x], and [Atoi] returns
    the nearest [int]. *)
Lemma parseRange_malformed_counterexample :
  wellFormedNumber "99999999999999999999x" = false /\
  parseRange "99999999999999999999x" = (MaxInt, 1) /\
  parseRange "7,-99999999999999999999x" = (7, MinInt).
Proof. repeat split; vm_compute; reflexivity. Qed.

(** C6, amended.  For range tokens without commas: [start] alone gives
    count 1, and [start,count] gives the two values [Atoi] yields.  A token
    of at most 20 bytes that is not a well-formed number (optional sign, then
    one or more digits) parses as zero; so does every token for which [Atoi]
    reports a syntax error.  [parseRange] has no failing path. *)
Theorem parseRange_permissive (start count : string) :
  hasByte comma start = false ->
  hasByte comma count = false ->
  parseRange start = (fst (Atoi start), 1) /\
  parseRange (start ++ "," ++ count) = (fst (Atoi start), fst (Atoi count)) /\
  (forall tok,
      wellFormedNumber tok = false -> (String.length tok <= 20)%nat ->
      Atoi tok = (0, Some ErrSyntax)) /\
  (forall tok, snd (Atoi tok) = Some ErrSyntax -> fst (Atoi tok) = 0).
Proof.
  intros Hs Hc. apply hasByte_false in Hs, Hc.
  split; [|split; [|split]].
  - unfold parseRange. rewrite Split_absent by exact Hs. reflexivity.
  - unfold parseRange.
    change ("," ++ count) with (String comma count).
    rewrite Split_first by exact Hs. rewrite Split_absent by exact Hc. reflexivity.
  - apply Atoi_malformed.
  - apply Atoi_syntax.
Qed.

Lemma parseRange_permissive_witness :
  parseRange "10" = (10, 1) /\
  parseRange ("10" ++ "," ++ "x5") = (10, 0) /\
  Atoi "x5" = (0, Some ErrSyntax).
Proof.
  destruct (parseRange_permissive "10" "x5") as (H1 & H2 & H3 & _).
  - reflexivity.
  - reflexivity.
  - split; [exact H1|]. split; [exact H2|].
    apply H3; [reflexivity|simpl; lia].
Defined.

(** ** The directive scanner *)

(** C7 does not hold of the code.  The payload loop starts at index
    [toolCount], not at the line after the directive, and the outer loop goes
    on with the line after the directive.  With one line of prose before the
    directive the payload begins with the directive line itself; a payload
    line that is a directive is executed as well.  Only when every earlier
    line was a directive (here: the directive is the first line) is the
    payload the lines that follow it. *)
Theorem create_file_payload_from_toolCount :
  callsOf proseThenCreate
    = [CreateFile "a.txt" ("CREATE_FILE: a.txt" ++ LF ++ "hello")] /\
  callsOf createScript
    = [CreateFile "run.sh" "RUN_COMMAND: ls"; ExecuteCommand "ls"] /\
  callsOf createFirst
    = [CreateFile "a.txt" ("hello" ++ LF ++ "" ++ LF ++ "  world")].
Proof. repeat split; vm_compute; reflexivity. Qed.

(** C8 does not hold of the code.  The remainder after the prefix is split
    at its first blank before it is trimmed, so with the documented blank
    after the colon the first part is empty: one token still calls the
    search handler, and with two tokens the pattern is empty and the
    directory is both tokens.  Only without that blank does the split fall
    between the tokens. *)
Theorem search_files_split_at_first_blank :
  callsOf "SEARCH_FILES: TODO" = [SearchFiles "" "TODO"] /\
  callsOf "SEARCH_FILES: TODO src" = [SearchFiles "" "TODO src"] /\
  callsOf "SEARCH_FILES:TODO src" = [SearchFiles "TODO" "src"] /\
  callsOf "SEARCH_FILES:TODO" = [] /\
  (forall (World : Type) (handler : call -> World -> string * World)
          (rest : string) (st : scanner World),
      onSearchFiles World handler ("SEARCH_FILES: " ++ rest) st
      = run World handler (count World st)
            (SearchFiles "" (TrimSpace rest))
            ("SEARCH_FILES: " ++ "" ++ " in " ++ TrimSpace rest)).
Proof.
  split; [vm_compute; reflexivity|].
  split; [vm_compute; reflexivity|].
  split; [vm_compute; reflexivity|].
  split; [vm_compute; reflexivity|].
  intros World handler rest st. unfold onSearchFiles.
  change (HasPrefix ("SEARCH_FILES: " ++ rest) "SEARCH_FILES:") with true.
  change (TrimPrefix ("SEARCH_FILES: " ++ rest) "SEARCH_FILES:") with (String blank rest).
  cbv iota zeta.
  assert (Hsplit : SplitN (String blank rest) blank 2 = [""; rest]).
  { unfold SplitN. change (2 =? 0) with false. change (2 <? 0) with false. cbv iota.
    destruct (Z.gtb_spec 2 (Z.of_nat (String.length (String blank rest)) + 1)) as [H|_].
    - simpl in H. lia.
    - reflexivity. }
  rewrite Hsplit. reflexivity.
Qed.

(** * Further properties of the code *)

(** ** [isTextFile] *)

Lemma get_skipBytes content i :
  (i < String.length content)%nat ->
  exists c, String.get i content = Some c /\
            skipBytes i content = String c (skipBytes (S i) content).
Proof.
  revert i. induction content as [|c content IH]; intros i Hi; simpl in Hi; [lia|].
  destruct i as [|i].
  - exists c. split; [reflexivity|]. simpl. now destruct content.
  - destruct (IH i ltac:(lia)) as (d & Hget & Hskip).
    exists d. split; [exact Hget|exact Hskip].
Qed.

Lemma nulScan_counts content i n :
  (i + n <= String.length content)%nat ->
  nulScan content i n
  = Ok (negb (hasByte nul (takeBytes n (skipBytes i content)))).
Proof.
  revert i. induction n as [|n IH]; intros i Hlen.
  - simpl. now destruct (skipBytes i content).
  - destruct (get_skipBytes content i ltac:(lia)) as (c & Hget & Hskip).
    simpl. rewrite Hget, Hskip. cbn [takeBytes].
    rewrite IH by lia. unfold hasByte. cbn [Count].
    destruct (Z.eqb_spec (byte c) 0) as [Hz|Hz].
    + assert (c = nul) as ->.
      { rewrite <- (ascii_nat_embedding c). unfold byte in Hz.
        replace (nat_of_ascii c) with 0%nat by lia. reflexivity. }
      reflexivity.
    + destruct (Ascii.eqb_spec c nul) as [->|_]; [exfalso; apply Hz; reflexivity|].
      reflexivity.
Qed.

Lemma takeBytes_all n s : (String.length s <= n)%nat -> takeBytes n s = s.
Proof.
  revert n. induction s as [|c s IH]; intros n Hn; destruct n; simpl in *;
    try reflexivity; try lia.
  now rewrite IH by lia.
Qed.

Lemma takeBytes_append s t : takeBytes (String.length s) (s ++ t) = s.
Proof. induction s as [|c s IH]; simpl; [reflexivity|now rewrite IH]. Qed.

(** X1.  [isTextFile] never indexes outside the content.  It answers true
    exactly when none of the first 1024 bytes is zero; the bytes after the
    first 1024 have no influence. *)
Theorem isTextFile_first_1024 :
  (forall content,
      isTextFile content = Ok (negb (hasByte nul (takeBytes 1024 content)))) /\
  (forall head tail,
      String.length head = 1024%nat ->
      isTextFile (head ++ tail) = isTextFile head).
Proof.
  assert (Hspec : forall content,
             isTextFile content = Ok (negb (hasByte nul (takeBytes 1024 content)))).
  { intros content. unfold isTextFile. cbv zeta.
    destruct (Z.gtb_spec (Z.of_nat (String.length content)) 1024) as [Hbig|Hsmall].
    - rewrite nulScan_counts by (change (Z.to_nat 1024) with 1024%nat; lia).
      reflexivity.
    - rewrite nulScan_counts by lia. rewrite Nat2Z.id. simpl skipBytes.
      rewrite !takeBytes_all by lia. reflexivity. }
  split; [exact Hspec|].
  intros head tail Hlen. rewrite !Hspec.
  rewrite <- Hlen at 1. rewrite takeBytes_append.
  now rewrite takeBytes_all by lia.
Qed.

Lemma isTextFile_first_1024_witness :
  isTextFile (padding 1024 ++ String nul "") = isTextFile (padding 1024).
Proof.
  destruct isTextFile_first_1024 as [_ H].
  apply (H (padding 1024) (String nul "")).
  vm_compute. reflexivity.
Defined.

(** ** The spinner *)

Lemma Next_in_range s :
  0 <= index s < Z.of_nat (length (frames s)) ->
  Z.of_nat (length (frames s)) <= MaxInt ->
  Next s = Ok (nth (Z.to_nat (index s)) (frames s) "",
               mkSpinner (frames s) ((index s + 1) mod Z.of_nat (length (frames s)))).
Proof.
  intros Hidx Hlen. unfold Next.
  destruct (Z.leb_spec 0 (index s)); [|lia].
  destruct (Z.ltb_spec (index s) (Z.of_nat (length (frames s)))); [|lia].
  destruct (Z.eqb_spec (Z.of_nat (length (frames s))) 0); [lia|].
  cbn [andb].
  rewrite wrap_id by (unfold inRange, MinInt, MaxInt in *; lia).
  rewrite Z.rem_mod_nonneg by lia. reflexivity.
Qed.

Lemma spinFrames_from (n i : nat) :
  (i < 10)%nat ->
  spinFrames n (mkSpinner (frames NewSpinner) (Z.of_nat i))
  = Ok (map (fun k => nth ((i + k) mod 10) (frames NewSpinner) "") (seq 0 n),
        mkSpinner (frames NewSpinner) (Z.of_nat ((i + n) mod 10))).
Proof.
  revert i. induction n as [|n IH]; intros i Hi.
  - cbn [spinFrames seq map]. rewrite Nat.add_0_r, Nat.mod_small by lia. reflexivity.
  - cbn [spinFrames].
    rewrite Next_in_range
      by (cbn [index frames NewSpinner length]; unfold MaxInt; lia).
    cbn [bind snd fst index frames].
    change (Z.of_nat (length (frames NewSpinner))) with 10.
    replace ((Z.of_nat i + 1) mod 10) with (Z.of_nat ((i + 1) mod 10))
      by (rewrite Nat2Z.inj_mod; f_equal; lia).
    rewrite IH by (apply Nat.mod_upper_bound; lia).
    cbn [bind fst snd]. f_equal. f_equal.
    + cbn [seq map]. f_equal.
      * rewrite Nat2Z.id, Nat.add_0_r, Nat.mod_small by lia. reflexivity.
      * rewrite <- seq_shift, map_map. apply map_ext. intros k.
        f_equal. rewrite Nat.Div0.add_mod_idemp_l. f_equal. lia.
    + f_equal. f_equal. rewrite Nat.Div0.add_mod_idemp_l. f_equal. lia.
Qed.

(** X2.  A spinner made by [NewSpinner] never panics, however often [Next]
    is called: call number k (from 0) returns frame k mod 10, and after n
    calls the index is n mod 10, so the ten frames repeat in order. *)
Theorem spinner_cycles (n : nat) :
  spinFrames n NewSpinner
  = Ok (map (fun k => nth (k mod 10) (frames NewSpinner) "") (seq 0 n),
        mkSpinner (frames NewSpinner) (Z.of_nat (n mod 10))).
Proof. exact (spinFrames_from n 0 ltac:(lia)). Qed.

(** ** A change without hunks *)

Lemma cut_found s sep a b :
  cut s sep = Some (a, b) -> s = a ++ String sep b /\ Count a sep = 0%nat.
Proof.
  revert a b. induction s as [|c s IH]; intros a b; simpl; [discriminate|].
  destruct (Ascii.eqb_spec c sep) as [->|Hne].
  - intros [= <- <-]. split; reflexivity.
  - destruct (cut s sep) as [[a' b']|]; [|discriminate].
    intros [= <- <-]. destruct (IH a' b' eq_refl) as [-> Hcount].
    split; [reflexivity|]. simpl.
    destruct (Ascii.eqb_spec c sep); [contradiction|exact Hcount].
Qed.

Lemma genSplitLoop_first n s sep :
  exists part parts, genSplitLoop n s sep = part :: parts.
Proof.
  destruct n as [|n]; simpl; [eauto|].
  destruct (cut s sep) as [[a b]|]; eauto.
Qed.

Lemma Join_genSplitLoop n s sep :
  Join (genSplitLoop n s sep) (String sep "") = s.
Proof.
  revert s. induction n as [|n IH]; intros s; simpl; [reflexivity|].
  destruct (cut s sep) as [[a b]|] eqn:Hcut; [|reflexivity].
  destruct (cut_found _ _ _ _ Hcut) as [-> _].
  specialize (IH b). unfold Join in *.
  destruct (genSplitLoop_first n b sep) as (part & parts & Hparts).
  rewrite Hparts in *.
  change (String.concat (String sep "") (a :: part :: parts))
    with (a ++ String sep "" ++ String.concat (String sep "") (part :: parts)).
  now rewrite IH.
Qed.

Lemma Join_Split s sep : Join (Split s sep) (String sep "") = s.
Proof. rewrite Split_genSplitLoop. apply Join_genSplitLoop. Qed.

(** X3.  A change without hunks rewrites the text as it is, except that a
    text that does not end in a newline gets one; so the empty text becomes
    a single newline. *)
Theorem patch_without_hunks
    (growslice : nat -> nat -> nat) (content path : string) :
  patch growslice content (mkDiffChange path [])
  = Ok (if HasSuffix content LF then content else content ++ LF).
Proof.
  unfold patch. cbn [Hunks length hunkLoop bind].
  unfold joinLines, fresh. cbn [elems].
  unfold LF. rewrite !Join_Split.
  now destruct (HasSuffix content (String newline "")).
Qed.

(** ** The directive scanner, continued *)

Lemma HasPrefix_split l p :
  HasPrefix l p = true -> l = p ++ skipBytes (String.length p) l.
Proof.
  unfold HasPrefix. revert l. induction p as [|c p IH]; intros l H.
  - now destruct l.
  - destruct l as [|d l]; [discriminate|]. cbn [String.prefix] in H.
    destruct (ascii_dec c d) as [<-|]; [|discriminate].
    change (String c l = String c (p ++ skipBytes (String.length p) l)).
    f_equal. now apply IH.
Qed.

Ltac decide_prefixes :=
  repeat match goal with
  | |- context [HasPrefix (?p ++ ?r) ?q] =>
      let b := eval vm_compute in (HasPrefix (p ++ r) q) in
      change (HasPrefix (p ++ r) q) with b
  end.

Ltac first_prefix E :=
  apply HasPrefix_split in E;
  match type of E with
  | ?t = ?p ++ ?r =>
      let rest := fresh "rest" in
      set (rest := r) in E; clearbody rest; subst t
  end;
  decide_prefixes; reflexivity.

Section ScannerFacts.

Variable World : Type.
Variable handler : call -> World -> string * World.

Lemma scanLine_dispatchLine lines st l :
  scanLine World handler lines st l = dispatchLine World handler lines st l.
Proof.
  unfold scanLine, dispatchLine. cbv zeta.
  generalize (TrimSpace l). intros t.
  destruct (String.eqb_spec t "") as [->|_]; [reflexivity|].
  unfold classify, kinds, branch. cbn [find prefixOf].
  unfold onRunCommand, onReadFile, onListDir, onTestCommand, onSearchFiles,
    onGenerateDiff, onApplyDiff, onCreateFile.
  destruct (HasPrefix t "RUN_COMMAND:") eqn:E1; [first_prefix E1|].
  destruct (HasPrefix t "READ_FILE:") eqn:E2; [first_prefix E2|].
  destruct (HasPrefix t "LIST_DIR:") eqn:E3; [first_prefix E3|].
  destruct (HasPrefix t "TEST_COMMAND:") eqn:E4; [first_prefix E4|].
  destruct (HasPrefix t "SEARCH_FILES:") eqn:E5; [first_prefix E5|].
  destruct (HasPrefix t "GENERATE_DIFF:") eqn:E6; [first_prefix E6|].
  destruct (HasPrefix t "APPLY_DIFF:") eqn:E7; [first_prefix E7|].
  destruct (HasPrefix t "CREATE_FILE:") eqn:E8; [first_prefix E8|].
  reflexivity.
Qed.

End ScannerFacts.

(** ** The parser, continued *)

Lemma parseDiff_lines d : parseDiff d = parseDiffLines (Split d newline).
Proof. reflexivity. Qed.

(** Without a change open, a line that opens none leaves none open. *)
Lemma parseLine_closed hunk l :
  isOldFileLine l = false ->
  exists hunk', parseLine (mkParser [] None hunk) l = inl (mkParser [] None hunk').
Proof.
  unfold isOldFileLine, parseLine. cbv zeta. intros ->.
  destruct (String.eqb _ ""); [eauto|].
  destruct (HasPrefix _ "+++ b/"); [cbn; eauto|].
  destruct (HasPrefix _ "@@").
  - cbn [currentHunk currentChange changes].
    assert (Hcc : match hunk with Some _ => @None DiffChange | None => None end = None)
      by now destruct hunk.
    rewrite Hcc.
    destruct (length _ <? 3)%nat; [eauto|].
    destruct (parseRange _), (parseRange _). eauto.
  - cbn [currentHunk currentChange changes].
    destruct hunk; [|eauto].
    destruct (HasPrefix _ "+"); [eauto|]. destruct (HasPrefix _ "-"); eauto.
Qed.

Lemma parseLines_closed hunk ls :
  forallb (fun l => negb (isOldFileLine l)) ls = true ->
  exists hunk', parseLines (mkParser [] None hunk) ls = inl (mkParser [] None hunk').
Proof.
  revert hunk. induction ls as [|l ls IH]; intros hunk H; simpl in *; [eauto|].
  apply andb_prop in H as [Hl Hls]. apply negb_true_iff in Hl.
  destruct (parseLine_closed hunk l Hl) as (hunk' & ->). now apply IH.
Qed.

Lemma parseLine_opens st l :
  isOldFileLine l = true ->
  parseLine st l
  = inl (mkParser (flush st) (Some (mkDiffChange (TrimPrefix (TrimSpace l) "--- a/") []))
                  None).
Proof.
  unfold isOldFileLine, parseLine. cbv zeta. intros H. rewrite H.
  destruct (String.eqb_spec (TrimSpace l) "") as [Hblank|_]; [|reflexivity].
  rewrite Hblank in H. discriminate.
Qed.

(** X4.  Whatever comes before the first [--- a/] line is ignored, also
    lines that look like hunk headers, additions or [+++ b/] lines; a text
    without a [--- a/] line parses, without error, to no change at all. *)
Theorem lines_before_first_file_header_ignored (d : string) :
  (forall before header after,
      Split d newline = (before ++ header :: after)%list ->
      forallb (fun l => negb (isOldFileLine l)) before = true ->
      isOldFileLine header = true ->
      parseDiff d = parseDiffLines (header :: after)) /\
  (forallb (fun l => negb (isOldFileLine l)) (Split d newline) = true ->
   parseDiff d = ([], None)).
Proof.
  split.
  - intros before header after Hsplit Hbefore Hheader.
    rewrite parseDiff_lines, Hsplit. unfold parseDiffLines.
    rewrite parseLines_app.
    destruct (parseLines_closed None before Hbefore) as (hunk & Hrun).
    change (mkParser [] None None) with parseStart in Hrun. rewrite Hrun.
    cbn [parseLines]. now rewrite !parseLine_opens by exact Hheader.
  - intros Hnone. rewrite parseDiff_lines. unfold parseDiffLines.
    destruct (parseLines_closed None _ Hnone) as (hunk & Hrun).
    change (mkParser [] None None) with parseStart in Hrun. now rewrite Hrun.
Qed.

Lemma lines_before_first_file_header_ignored_witness :
  parseDiff ("Here is the patch:" ++ LF ++ "+++ b/z" ++ LF ++ "@@ -1 +1 @@" ++ LF
             ++ "--- a/x.txt" ++ LF ++ "@@ -1,0 +1,1 @@" ++ LF ++ "+hi")
  = parseDiffLines ["--- a/x.txt"; "@@ -1,0 +1,1 @@"; "+hi"] /\
  parseDiff ("no diff here" ++ LF ++ "+just prose") = ([], None).
Proof.
  split.
  - apply (lines_before_first_file_header_ignored _)
      with (before := ["Here is the patch:"; "+++ b/z"; "@@ -1 +1 @@"]).
    + vm_compute. reflexivity.
    + vm_compute. reflexivity.
    + vm_compute. reflexivity.
  - apply (lines_before_first_file_header_ignored _). vm_compute. reflexivity.
Defined.

Lemma flush_paths st :
  map FilePath (flush st)
  = (map FilePath (changes st)
     ++ match currentChange st with Some c => [FilePath c] | None => [] end)%list.
Proof.
  unfold flush. destruct (currentChange st) as [c|]; [|now rewrite app_nil_r].
  rewrite map_app. now destruct (currentHunk st).
Qed.

Lemma parseLine_paths st l st' :
  parseLine st l = inl st' ->
  map FilePath (flush st')
  = (map FilePath (flush st) ++ oldFilePaths [l])%list.
Proof.
  unfold oldFilePaths. cbn [List.filter map].
  destruct (isOldFileLine l) eqn:Hold.
  - rewrite parseLine_opens by exact Hold. intros [= <-].
    rewrite (flush_paths (mkParser _ _ _)). reflexivity.
  - cbn [map]. rewrite app_nil_r, !flush_paths.
    unfold isOldFileLine in Hold. unfold parseLine. cbv zeta. rewrite Hold.
    destruct (String.eqb _ ""); [now intros [= <-]|].
    destruct (HasPrefix _ "+++ b/").
    { destruct (currentChange st) as [c|] eqn:Hc; [|intros [= <-]; now rewrite Hc].
      destruct (negb _); [discriminate|]. intros [= <-]. now rewrite Hc. }
    destruct (HasPrefix _ "@@").
    { destruct (length _ <? 3)%nat.
      - intros [= <-]. cbn [changes currentChange].
        now destruct (currentHunk st), (currentChange st).
      - destruct (parseRange _), (parseRange _). intros [= <-].
        cbn [changes currentChange].
        now destruct (currentHunk st), (currentChange st). }
    destruct (currentHunk st); [|now intros [= <-]].
    destruct (HasPrefix _ "+"); [now intros [= <-]|].
    destruct (HasPrefix _ "-"); now intros [= <-].
Qed.

Lemma oldFilePaths_app a b : oldFilePaths (a ++ b) = (oldFilePaths a ++ oldFilePaths b)%list.
Proof. unfold oldFilePaths. now rewrite List.filter_app, map_app. Qed.

Lemma parseLines_paths ls : forall st st',
  parseLines st ls = inl st' ->
  map FilePath (flush st') = (map FilePath (flush st) ++ oldFilePaths ls)%list.
Proof.
  induction ls as [|l ls IH]; intros st st'; simpl.
  - intros [= <-]. now rewrite app_nil_r.
  - destruct (parseLine st l) as [mid|] eqn:Hl; [|discriminate].
    intros Hrest. rewrite (IH _ _ Hrest), (parseLine_paths _ _ _ Hl).
    change (l :: ls) with ([l] ++ ls)%list.
    now rewrite oldFilePaths_app, app_assoc.
Qed.

(** X5.  When [parseDiff] succeeds, its changes are, in order and without
    merging repeated paths, one per [--- a/] line: their paths are the paths
    those lines name. *)
Theorem changes_follow_file_headers (d : string) (cs : list DiffChange) :
  parseDiff d = (cs, None) ->
  map FilePath cs = oldFilePaths (Split d newline).
Proof.
  unfold parseDiff.
  destruct (parseLines parseStart (Split d newline)) as [st|] eqn:Hrun; [|discriminate].
  intros [= <-]. now rewrite (parseLines_paths _ _ _ Hrun).
Qed.

Lemma changes_follow_file_headers_witness :
  map FilePath (fst (parseDiff threeFileDiff)) = ["a.txt"; "missing.txt"; "c.txt"].
Proof.
  rewrite (changes_follow_file_headers threeFileDiff (fst (parseDiff threeFileDiff))).
  - vm_compute. reflexivity.
  - vm_compute. reflexivity.
Defined.

Lemma parseLines_error ls : forall st e,
  parseLines st ls = inr e ->
  exists openPath l,
    In l ls /\
    HasPrefix (TrimSpace l) "+++ b/" = true /\
    openPath <> TrimPrefix (TrimSpace l) "+++ b/" /\
    e = MismatchedPaths openPath (TrimPrefix (TrimSpace l) "+++ b/").
Proof.
  induction ls as [|l ls IH]; intros st e; simpl; [discriminate|].
  destruct (parseLine st l) as [mid|e'] eqn:Hl.
  - intros Hrest. destruct (IH _ _ Hrest) as (a & l' & Hin & H).
    exists a, l'. split; [now right|exact H].
  - intros [= <-]. revert Hl. unfold parseLine. cbv zeta.
    destruct (String.eqb _ ""); [discriminate|].
    destruct (HasPrefix _ "--- a/"); [discriminate|].
    destruct (HasPrefix _ "+++ b/") eqn:Hmark.
    + destruct (currentChange st) as [c|]; [|discriminate].
      destruct (String.eqb_spec (FilePath c) (TrimPrefix (TrimSpace l) "+++ b/"))
        as [|Hne]; [discriminate|].
      intros [= <-]. exists (FilePath c), l. repeat split; auto with datatypes.
    + destruct (HasPrefix _ "@@").
      * destruct (length _ <? 3)%nat; [discriminate|].
        destruct (parseRange _), (parseRange _). discriminate.
      * destruct (currentHunk st); [|discriminate].
        destruct (HasPrefix _ "+"); [discriminate|].
        destruct (HasPrefix _ "-"); discriminate.
Qed.

(** X6.  [parseDiff] has one way to fail.  If it returns an error it returns
    no change, and the error is the mismatch of some [+++ b/] line of the
    text with a different path; so a text without [+++ b/] lines always
    parses. *)
Theorem parseDiff_fails_only_on_mismatch (d : string) (cs : list DiffChange) (e : error) :
  parseDiff d = (cs, Some e) ->
  cs = [] /\
  exists openPath l,
    In l (Split d newline) /\
    HasPrefix (TrimSpace l) "+++ b/" = true /\
    openPath <> TrimPrefix (TrimSpace l) "+++ b/" /\
    e = MismatchedPaths openPath (TrimPrefix (TrimSpace l) "+++ b/").
Proof.
  unfold parseDiff.
  destruct (parseLines parseStart (Split d newline)) as [st|e'] eqn:Hrun; [discriminate|].
  intros [= <- <-]. split; [reflexivity|]. exact (parseLines_error _ _ _ Hrun).
Qed.

Lemma parseDiff_fails_only_on_mismatch_witness :
  exists openPath l,
    In l (Split mismatchDiff newline) /\
    HasPrefix (TrimSpace l) "+++ b/" = true /\
    openPath <> TrimPrefix (TrimSpace l) "+++ b/" /\
    MismatchedPaths "x.txt" "y.txt"
    = MismatchedPaths openPath (TrimPrefix (TrimSpace l) "+++ b/").
Proof.
  apply (parseDiff_fails_only_on_mismatch mismatchDiff []
           (MismatchedPaths "x.txt" "y.txt")).
  vm_compute. reflexivity.
Defined.

Lemma addHunk_ok c h : changeOk c -> hunkOk h -> changeOk (addHunk c h).
Proof.
  unfold changeOk, addHunk. cbn [Hunks]. intros Hc Hh.
  apply Forall_app. split; [exact Hc|]. now constructor.
Qed.

Lemma flush_ok st : parserOk st -> Forall changeOk (flush st).
Proof.
  intros (Hcs & Hc & Hh). unfold flush.
  destruct (currentChange st) as [c|]; [|exact Hcs].
  apply Forall_app. split; [exact Hcs|]. constructor; [|constructor].
  destruct (currentHunk st) as [h|]; [apply addHunk_ok|]; auto.
Qed.

Lemma parseLine_ok st l st' : parserOk st -> parseLine st l = inl st' -> parserOk st'.
Proof.
  intros Hst. pose proof Hst as (Hcs & Hc & Hh).
  unfold parseLine. cbv zeta.
  destruct (String.eqb_spec (TrimSpace l) "") as [|Hline]; [now intros [= <-]|].
  destruct (HasPrefix _ "--- a/").
  { intros [= <-]. split; [now apply flush_ok|]. split; cbn.
    - intros c [= <-]. constructor.
    - discriminate. }
  destruct (HasPrefix _ "+++ b/").
  { destruct (currentChange st); [destruct (negb _); [discriminate|]|]; now intros [= <-]. }
  assert (Hcc : forall c,
             match currentHunk st, currentChange st with
             | Some h, Some c => Some (addHunk c h)
             | _, c => c
             end = Some c -> changeOk c).
  { intros c. destruct (currentHunk st) as [h|], (currentChange st) as [c0|];
      try discriminate; intros [= <-]; auto using addHunk_ok. }
  destruct (HasPrefix _ "@@").
  { destruct (length _ <? 3)%nat.
    - intros [= <-]. split; [exact Hcs|]. split; [exact Hcc|exact Hh].
    - destruct (parseRange _), (parseRange _). intros [= <-].
      split; [exact Hcs|]. split; [exact Hcc|].
      cbn. intros h [= <-]. constructor. }
  destruct (currentHunk st) as [h|] eqn:Hhunk; [|now intros [= <-]].
  assert (Hadd : forall ty content,
             lineOk (mkDiffLine ty content 0) ->
             parserOk (mkParser (changes st) (currentChange st)
                                (Some (addLine h (mkDiffLine ty content 0))))).
  { intros ty content Hl. split; [exact Hcs|]. split; [exact Hc|].
    cbn. intros h' [= <-]. unfold hunkOk, addLine. cbn [Lines].
    apply Forall_app. split; [now apply Hh|]. now constructor. }
  destruct (HasPrefix _ "+").
  { intros [= <-]. apply Hadd. split; cbn; auto. }
  destruct (HasPrefix _ "-").
  { intros [= <-]. apply Hadd. split; cbn; auto. }
  intros [= <-]. apply Hadd. split; cbn; auto.
Qed.

Lemma parseLines_ok ls : forall st st',
  parserOk st -> parseLines st ls = inl st' -> parserOk st'.
Proof.
  induction ls as [|l ls IH]; intros st st' Hst; simpl.
  - now intros [= <-].
  - destruct (parseLine st l) as [mid|] eqn:Hl; [|discriminate].
    apply IH. exact (parseLine_ok _ _ _ Hst Hl).
Qed.

Lemma parseLine_blank st l : TrimSpace l = "" -> parseLine st l = inl st.
Proof. unfold parseLine. cbv zeta. now intros ->. Qed.

(** X7.  In every hunk [parseDiff] returns, each line has type ["+"], ["-"]
    or [" "] and no line number, and no context line is empty.  Lines that
    are blank after trimming have no effect wherever they stand, so a blank
    context line of a diff is lost. *)
Theorem parsed_lines_are_typed (d : string) :
  Forall changeOk (fst (parseDiff d)) /\
  (forall before blank after,
      TrimSpace blank = "" ->
      Split d newline = (before ++ blank :: after)%list ->
      parseDiff d = parseDiffLines (before ++ after)).
Proof.
  split.
  - unfold parseDiff.
    destruct (parseLines parseStart (Split d newline)) as [st|] eqn:Hrun;
      [|constructor].
    apply flush_ok.
    assert (Hstart : parserOk parseStart)
      by (split; [constructor|split; discriminate]).
    exact (parseLines_ok _ _ _ Hstart Hrun).
  - intros before blank after Hblank Hsplit.
    rewrite parseDiff_lines, Hsplit. unfold parseDiffLines.
    rewrite !parseLines_app.
    destruct (parseLines parseStart before) as [st|]; [|reflexivity].
    cbn [parseLines]. now rewrite parseLine_blank.
Qed.

Lemma parsed_lines_are_typed_witness :
  parseDiff ("--- a/f" ++ LF ++ "@@ -1,3 +1,3 @@" ++ LF ++ " a" ++ LF ++ "   "
             ++ LF ++ " c")
  = parseDiffLines (["--- a/f"; "@@ -1,3 +1,3 @@"; " a"] ++ [" c"]).
Proof.
  apply (parsed_lines_are_typed _) with (blank := "   ").
  - vm_compute. reflexivity.
  - vm_compute. reflexivity.
Defined.

(** ** The directive scanner, continued *)

Lemma Count_skipBytes n s c : (Count (skipBytes n s) c <= Count s c)%nat.
Proof.
  revert n. induction s as [|b s IH]; intros [|n]; simpl; try lia.
  specialize (IH n). destruct (Ascii.eqb b c); lia.
Qed.

Lemma Count_trimLeft s c : (Count (trimLeft s) c <= Count s c)%nat.
Proof.
  assert (H : forall m s, (String.length s <= m)%nat ->
                          (Count (trimLeft s) c <= Count s c)%nat).
  { clear s. induction m as [|m IH]; intros s Hs.
    - destruct s; simpl in *; lia.
    - destruct s as [|c1 s1]; [simpl; lia|].
      cbn [trimLeft]. simpl in Hs.
      destruct (asciiSpace c1).
      { specialize (IH s1 ltac:(lia)). cbn [Count]. destruct (Ascii.eqb c1 c); lia. }
      destruct s1 as [|c2 s2]; [lia|]. simpl in Hs.
      destruct (space2 c1 c2).
      { specialize (IH s2 ltac:(lia)). cbn [Count].
        destruct (Ascii.eqb c1 c), (Ascii.eqb c2 c); lia. }
      destruct s2 as [|c3 s3]; [lia|]. simpl in Hs.
      destruct (space3 c1 c2 c3); [|lia].
      specialize (IH s3 ltac:(lia)). cbn [Count].
      destruct (Ascii.eqb c1 c), (Ascii.eqb c2 c), (Ascii.eqb c3 c); lia. }
  exact (H _ s (le_n _)).
Qed.

Lemma Count_trimLeftRev s c : (Count (trimLeftRev s) c <= Count s c)%nat.
Proof.
  assert (H : forall m s, (String.length s <= m)%nat ->
                          (Count (trimLeftRev s) c <= Count s c)%nat).
  { clear s. induction m as [|m IH]; intros s Hs.
    - destruct s; simpl in *; lia.
    - destruct s as [|c1 s1]; [simpl; lia|].
      cbn [trimLeftRev]. simpl in Hs.
      destruct (asciiSpace c1).
      { specialize (IH s1 ltac:(lia)). cbn [Count]. destruct (Ascii.eqb c1 c); lia. }
      destruct s1 as [|c2 s2]; [lia|]. simpl in Hs.
      destruct (space2 c2 c1).
      { specialize (IH s2 ltac:(lia)). cbn [Count].
        destruct (Ascii.eqb c1 c), (Ascii.eqb c2 c); lia. }
      destruct s2 as [|c3 s3]; [lia|]. simpl in Hs.
      destruct (space3 c3 c2 c1); [|lia].
      specialize (IH s3 ltac:(lia)). cbn [Count].
      destruct (Ascii.eqb c1 c), (Ascii.eqb c2 c), (Ascii.eqb c3 c); lia. }
  exact (H _ s (le_n _)).
Qed.

Lemma Count_rev_onto s acc c :
  Count (rev_onto s acc) c = (Count s c + Count acc c)%nat.
Proof.
  revert acc. induction s as [|b s IH]; intros acc; simpl; [reflexivity|].
  rewrite IH. simpl. destruct (Ascii.eqb b c); lia.
Qed.

Lemma Count_reverse s c : Count (reverse s) c = Count s c.
Proof. unfold reverse. rewrite Count_rev_onto. simpl. lia. Qed.

Lemma Count_TrimSpace s c : (Count (TrimSpace s) c <= Count s c)%nat.
Proof.
  unfold TrimSpace, trimRight. rewrite Count_reverse.
  pose proof (Count_trimLeftRev (reverse (trimLeft s)) c) as H.
  rewrite Count_reverse in H. pose proof (Count_trimLeft s c). lia.
Qed.

Lemma Count_TrimPrefix s p c : (Count (TrimPrefix s p) c <= Count s c)%nat.
Proof.
  unfold TrimPrefix. destruct (HasPrefix s p); [apply Count_skipBytes|lia].
Qed.

Lemma cut_none_absent s sep : cut s sep = None -> Count s sep = 0%nat.
Proof.
  induction s as [|c s IH]; simpl; [reflexivity|].
  destruct (Ascii.eqb c sep); [discriminate|].
  destruct (cut s sep) as [[a b]|]; [discriminate|]. auto.
Qed.

Lemma genSplitLoop_parts n sep : forall s,
  (Count s sep <= n)%nat ->
  Forall (fun part => Count part sep = 0%nat) (genSplitLoop n s sep).
Proof.
  induction n as [|n IH]; intros s Hn; simpl.
  - constructor; [lia|constructor].
  - destruct (cut s sep) as [[a b]|] eqn:Hcut.
    + destruct (cut_found _ _ _ _ Hcut) as [-> Ha].
      rewrite Count_append in Hn. simpl in Hn. rewrite Ascii.eqb_refl in Hn.
      constructor; [exact Ha|]. apply IH. lia.
    + constructor; [now apply cut_none_absent|constructor].
Qed.

Lemma Split_parts s sep : Forall (fun part => Count part sep = 0%nat) (Split s sep).
Proof. rewrite Split_genSplitLoop. now apply genSplitLoop_parts. Qed.

Lemma parseDiff_one_line d :
  Count d newline = 0%nat ->
  exists cs,
    parseDiff d = (cs, None) /\
    (cs = [] \/ cs = [mkDiffChange (TrimPrefix (TrimSpace d) "--- a/") []]).
Proof.
  intros Hd. unfold parseDiff. rewrite Split_absent by exact Hd.
  cbn [parseLines]. unfold parseLine. cbv zeta.
  destruct (String.eqb _ ""); [eauto|].
  destruct (HasPrefix _ "--- a/"); [eauto|].
  destruct (HasPrefix _ "+++ b/"); [cbn; eauto|].
  destruct (HasPrefix _ "@@").
  - cbn [currentHunk currentChange changes parseStart].
    destruct (length _ <? 3)%nat; [eauto|].
    destruct (parseRange _), (parseRange _). eauto.
  - cbn. eauto.
Qed.

Section ScannerCounts.

Variable World : Type.
Variable handler : call -> World -> string * World.

Lemma run_toolCount (st : scanner World) c label :
  toolCount World (run World handler st c label) = toolCount World st.
Proof. unfold run. now destruct (handler c (world World st)). Qed.

Lemma run_invoked (st : scanner World) c label :
  invoked World (run World handler st c label) = (invoked World st ++ [c])%list.
Proof. unfold run. now destruct (handler c (world World st)). Qed.

Lemma classify_prefix t k : classify t = Some k -> HasPrefix t (prefixOf k) = true.
Proof. unfold classify. intros H. now apply find_some in H. Qed.

(** What one branch does to the count and to the log of calls. *)
Lemma branch_effect k lines t st :
  HasPrefix t (prefixOf k) = true ->
  toolCount World (branch World handler k lines t st) = S (toolCount World st) /\
  (invoked World (branch World handler k lines t st) = invoked World st \/
   exists c,
     invoked World (branch World handler k lines t st) = (invoked World st ++ [c])%list /\
     forall d, c = ApplyDiffTool d -> d = TrimSpace (TrimPrefix t "APPLY_DIFF:")).
Proof.
  destruct k; cbn [branch prefixOf];
    unfold onRunCommand, onReadFile, onListDir, onTestCommand, onSearchFiles,
      onGenerateDiff, onApplyDiff, onCreateFile;
    intros ->; cbv zeta;
    try destruct (length _ =? 2)%nat;
    rewrite ?run_toolCount, ?run_invoked;
    (split; [reflexivity|]);
    try (left; reflexivity);
    right; eexists; (split; [reflexivity|]); intros d Hd;
    solve [discriminate Hd | now injection Hd as <-].
Qed.

Lemma dispatchLine_effect lines st l :
  toolCount World (dispatchLine World handler lines st l)
  = (toolCount World st + (if isDirective (TrimSpace l) then 1 else 0))%nat /\
  (isDirective (TrimSpace l) = false -> dispatchLine World handler lines st l = st) /\
  (invoked World (dispatchLine World handler lines st l) = invoked World st \/
   exists c,
     invoked World (dispatchLine World handler lines st l)
     = (invoked World st ++ [c])%list /\
     forall d, c = ApplyDiffTool d ->
               d = TrimSpace (TrimPrefix (TrimSpace l) "APPLY_DIFF:")).
Proof.
  unfold dispatchLine, isDirective. cbv zeta.
  destruct (classify (TrimSpace l)) as [k|] eqn:Hk.
  - destruct (branch_effect k lines (TrimSpace l) st (classify_prefix _ _ Hk))
      as [Hcount Hcalls].
    split; [rewrite Hcount; lia|]. split; [discriminate|exact Hcalls].
  - split; [lia|]. split; [reflexivity|now left].
Qed.

Lemma scan_fold lines ls : forall st,
  Forall (fun l => Count l newline = 0%nat) ls ->
  let st' := fold_left (scanLine World handler lines) ls st in
  toolCount World st' = (toolCount World st + length (directiveLines ls))%nat /\
  (length (invoked World st') + toolCount World st
   <= length (invoked World st) + toolCount World st')%nat /\
  (forall d, In (ApplyDiffTool d) (invoked World st') ->
             In (ApplyDiffTool d) (invoked World st) \/ Count d newline = 0%nat) /\
  (directiveLines ls = [] -> st' = st).
Proof.
  induction ls as [|l ls IH]; intros st Hls; cbn [fold_left directiveLines List.filter].
  - cbv zeta. repeat split; auto; simpl; lia.
  - inversion Hls as [|? ? Hl Hrest]; subst.
    rewrite scanLine_dispatchLine.
    destruct (dispatchLine_effect lines st l) as (Hcount & Hskip & Hcalls).
    destruct (IH (dispatchLine World handler lines st l) Hrest)
      as (IHcount & IHlen & IHdiff & IHskip).
    cbv zeta. fold (directiveLines ls).
    split; [|split; [|split]].
    + rewrite IHcount, Hcount. destruct (isDirective (TrimSpace l)); simpl; lia.
    + assert (length (invoked World (dispatchLine World handler lines st l))
              <= length (invoked World st)
                 + (if isDirective (TrimSpace l) then 1 else 0))%nat.
      { destruct Hcalls as [Heq|(c & Heq & _)].
        - rewrite Heq. lia.
        - destruct (isDirective (TrimSpace l)) eqn:Hd.
          + rewrite Heq, length_app. simpl. lia.
          + rewrite (Hskip eq_refl). lia. }
      lia.
    + intros d Hin. destruct (IHdiff d Hin) as [Hmid|]; [|now right].
      destruct Hcalls as [Heq|(c & Heq & Hc)]; rewrite Heq in Hmid; [now left|].
      apply in_app_or in Hmid. destruct Hmid as [Hmid|Hmid]; [now left|].
      destruct Hmid as [Hmid|[]].
      right. rewrite (Hc d Hmid).
      pose proof (Count_TrimSpace (TrimPrefix (TrimSpace l) "APPLY_DIFF:") newline).
      pose proof (Count_TrimPrefix (TrimSpace l) "APPLY_DIFF:" newline).
      pose proof (Count_TrimSpace l newline). lia.
    + destruct (isDirective (TrimSpace l)) eqn:Hd; [discriminate|].
      intros Hnil. rewrite (Hskip eq_refl) in *. auto.
Qed.

End ScannerCounts.

(** X8.  The eight prefix tests of [ExecuteTools] never fire together: what
    the loop body does with a line is what the single branch of the first
    prefix the trimmed line starts with does, and nothing when it starts
    with none (a blank line included). *)
Theorem one_branch_per_line
    (World : Type) (handler : call -> World -> string * World)
    (lines : list string) (st : scanner World) (l : string) :
  scanLine World handler lines st l = dispatchLine World handler lines st l.
Proof. apply scanLine_dispatchLine. Qed.

(** X9.  After [ExecuteTools] has scanned a response, [toolCount] is the
    number of lines that start, once trimmed, with a directive prefix; no
    more handler calls were made than that; and a response without such a
    line returns the bare banner and leaves the world as it was. *)
Theorem scanner_counts_directive_lines
    (World : Type) (handler : call -> World -> string * World)
    (response : string) (w : World) :
  toolCount World (scan World handler response w)
  = length (directiveLines (Split response newline)) /\
  (length (invoked World (scan World handler response w))
   <= toolCount World (scan World handler response w))%nat /\
  (directiveLines (Split response newline) = [] ->
   ExecuteTools World handler response w = (banner, w)).
Proof.
  unfold ExecuteTools, scan. cbv zeta.
  destruct (scan_fold World handler (Split response newline) (Split response newline)
              (mkScanner World 0 banner w []) (Split_parts response newline))
    as (Hcount & Hlen & _ & Hnone).
  cbv zeta in *. cbn [toolCount invoked length] in *.
  split; [exact Hcount|]. split; [lia|].
  intros Hnil. now rewrite (Hnone Hnil).
Qed.

Lemma scanner_counts_directive_lines_witness :
  ExecuteTools unit silent ("Nothing to do." ++ LF ++ "" ++ LF ++ "Bye.") tt = (banner, tt).
Proof.
  apply (scanner_counts_directive_lines unit silent).
  vm_compute. reflexivity.
Defined.

(** X10.  The diff text [ExecuteTools] hands to the [APPLY_DIFF] handler is
    cut out of one line of the response, so it holds no newline; and
    [parseDiff] turns a text without newline, without error, into no change
    or into one change that has no hunks.  An [APPLY_DIFF] directive can
    therefore never bring a hunk to [applyDiff]. *)
Theorem apply_diff_directive_has_no_hunks
    (World : Type) (handler : call -> World -> string * World)
    (response : string) (w : World) (d : string) :
  In (ApplyDiffTool d) (invoked World (scan World handler response w)) ->
  Count d newline = 0%nat /\
  exists cs,
    parseDiff d = (cs, None) /\
    (cs = [] \/ cs = [mkDiffChange (TrimPrefix (TrimSpace d) "--- a/") []]).
Proof.
  intros Hin. unfold scan in Hin. cbv zeta in Hin.
  destruct (scan_fold World handler (Split response newline) (Split response newline)
              (mkScanner World 0 banner w []) (Split_parts response newline))
    as (_ & _ & Hdiff & _).
  destruct (Hdiff d Hin) as [[]|Hd].
  split; [exact Hd|]. now apply parseDiff_one_line.
Qed.

Lemma apply_diff_directive_has_no_hunks_witness :
  Count "--- a/f.txt\n+++ b/f.txt\n@@ -1,0 +1,1 @@\n+x" newline = 0%nat /\
  exists cs,
    parseDiff "--- a/f.txt\n+++ b/f.txt\n@@ -1,0 +1,1 @@\n+x" = (cs, None) /\
    (cs = [] \/
     cs = [mkDiffChange
             (TrimPrefix (TrimSpace "--- a/f.txt\n+++ b/f.txt\n@@ -1,0 +1,1 @@\n+x")
                         "--- a/") []]).
Proof.
  apply (apply_diff_directive_has_no_hunks unit silent
           "APPLY_DIFF: --- a/f.txt\n+++ b/f.txt\n@@ -1,0 +1,1 @@\n+x" tt).
  vm_compute. left. reflexivity.
Defined.

(** X11.  [applyDiff] on a text without newline never panics, and all it can
    do to the files is give one of them the final newline it lacked. *)
Theorem one_line_diff_effect
    (growslice : nat -> nat -> nat) (filepathJoin : string -> string -> string)
    (d repoPath : string) (fs : fsys) :
  Count d newline = 0%nat ->
  exists fs' err,
    applyDiff growslice filepathJoin d repoPath fs = (fs', Ok err) /\
    readOnly fs' = readOnly fs /\
    forall q,
      files fs' !! q = files fs !! q \/
      exists content,
        files fs !! q = Some content /\ files fs' !! q = Some (content ++ LF).
Proof.
  intros Hd. destruct (parseDiff_one_line d Hd) as (cs & Hparse & [->| ->]).
  - exists fs, None. unfold applyDiff. rewrite Hparse. cbn. auto.
  - unfold applyDiff. rewrite Hparse. cbn [applyChanges].
    unfold applyFileChange, ReadFile. cbn [FilePath].
    set (path := filepathJoin repoPath _).
    destruct (files fs !! path) as [content|] eqn:Hread; [|eauto 6].
    rewrite patch_without_hunks. unfold WriteFile.
    destruct (bool_decide (path ∈ readOnly fs)); [eauto 6|].
    eexists _, None. split; [reflexivity|]. split; [reflexivity|].
    intros q. cbn [files].
    destruct (decide (path = q)) as [<-|Hne].
    + rewrite lookup_insert_eq, Hread.
      destruct (HasSuffix content LF); [now left|right; eauto].
    + rewrite lookup_insert_ne by exact Hne. now left.
Qed.

Lemma one_line_diff_effect_witness :
  exists fs' err,
    applyDiff exactFit slashJoin "--- a/a.txt" "repo" twoFiles = (fs', Ok err) /\
    readOnly fs' = readOnly twoFiles /\
    forall q,
      files fs' !! q = files twoFiles !! q \/
      exists content,
        files twoFiles !! q = Some content /\ files fs' !! q = Some (content ++ LF).
Proof.
  apply (one_line_diff_effect exactFit slashJoin "--- a/a.txt" "repo" twoFiles).
  reflexivity.
Defined.

Lemma HasPrefix_append p r : HasPrefix (p ++ r) p = true.
Proof.
  unfold HasPrefix. induction p as [|c p IH].
  - now destruct r.
  - change (String c p ++ r) with (String c (p ++ r)). cbn [String.prefix].
    destruct (ascii_dec c c); [exact IH|contradiction].
Qed.

Lemma TrimPrefix_append p r : TrimPrefix (p ++ r) p = r.
Proof. unfold TrimPrefix. now rewrite HasPrefix_append, skipBytes_append. Qed.

Lemma collectContent_stops pre s post :
  Forall (fun l => TrimSpace l <> "END_FILE") pre ->
  TrimSpace s = "END_FILE" ->
  collectContent (pre ++ s :: post) = pre.
Proof.
  intros Hpre Hs. induction Hpre as [|l pre Hl _ IH]; simpl.
  - now rewrite Hs.
  - destruct (String.eqb_spec (TrimSpace l) "END_FILE"); [contradiction|].
    now rewrite IH.
Qed.

Lemma collectContent_all ls :
  Forall (fun l => TrimSpace l <> "END_FILE") ls -> collectContent ls = ls.
Proof.
  intros Hls. induction Hls as [|l ls Hl _ IH]; simpl; [reflexivity|].
  destruct (String.eqb_spec (TrimSpace l) "END_FILE"); [contradiction|].
  now rewrite IH.
Qed.

Lemma scan_fold_grows
    (World : Type) (handler : call -> World -> string * World) lines ls :
  forall st, exists more,
    invoked World (fold_left (scanLine World handler lines) ls st)
    = (invoked World st ++ more)%list.
Proof.
  induction ls as [|l ls IH]; intros st; cbn [fold_left].
  - exists []. now rewrite app_nil_r.
  - destruct (IH (scanLine World handler lines st l)) as (more & ->).
    rewrite scanLine_dispatchLine.
    destruct (dispatchLine_effect World handler lines st l)
      as (_ & _ & [->|(c & -> & _)]).
    + now exists more.
    + exists (c :: more). now rewrite <- app_assoc.
Qed.

(** X12.  The payload loop of [CREATE_FILE] copies lines up to, and without,
    the first line that trims to [END_FILE], and all lines when there is
    none.  When the directive is the first line of the response, the
    payload is the lines that follow it, joined by newlines. *)
Theorem create_file_payload_stops_at_sentinel :
  (forall pre s post,
      Forall (fun l => TrimSpace l <> "END_FILE") pre ->
      TrimSpace s = "END_FILE" ->
      collectContent (pre ++ s :: post) = pre) /\
  (forall ls,
      Forall (fun l => TrimSpace l <> "END_FILE") ls -> collectContent ls = ls) /\
  (forall (World : Type) (handler : call -> World -> string * World)
          (response : string) (w : World) (first p : string) (rest : list string),
      Split response newline = first :: rest ->
      TrimSpace first = "CREATE_FILE:" ++ p ->
      exists more,
        invoked World (scan World handler response w)
        = CreateFile (TrimSpace p) (Join (collectContent rest) LF) :: more).
Proof.
  split; [exact collectContent_stops|]. split; [exact collectContent_all|].
  intros World handler response w first p rest Hsplit Hfirst.
  unfold scan. cbv zeta. rewrite Hsplit. cbn [fold_left].
  destruct (scan_fold_grows World handler (first :: rest) rest
              (scanLine World handler (first :: rest)
                        (mkScanner World 0 banner w []) first)) as (more & ->).
  exists more. f_equal.
  unfold scanLine. cbv zeta. rewrite Hfirst.
  unfold onRunCommand, onReadFile, onListDir, onTestCommand, onSearchFiles,
    onGenerateDiff, onApplyDiff, onCreateFile.
  rewrite (HasPrefix_append "CREATE_FILE:" p), (TrimPrefix_append "CREATE_FILE:" p).
  decide_prefixes.
  change (String.eqb ("CREATE_FILE:" ++ p) "") with false.
  cbv iota zeta. now rewrite run_invoked.
Qed.

Lemma create_file_payload_stops_at_sentinel_witness :
  collectContent (["hello"; ""; "  world"] ++ " END_FILE " :: ["later"])
  = ["hello"; ""; "  world"] /\
  exists more,
    callsOf createFirst
    = CreateFile (TrimSpace " a.txt")
                 (Join (collectContent ["hello"; ""; "  world"; "END_FILE"]) LF) :: more.
Proof.
  destruct create_file_payload_stops_at_sentinel as (Hstop & _ & Hfirst).
  split.
  - apply Hstop.
    + repeat constructor; vm_compute; discriminate.
    + vm_compute. reflexivity.
  - apply (Hfirst unit silent createFirst tt "CREATE_FILE: a.txt" " a.txt").
    + vm_compute. reflexivity.
    + vm_compute. reflexivity.
Defined.

Ltac single_argument p rest H :=
  unfold scanLine; cbv zeta; rewrite H;
  unfold onRunCommand, onReadFile, onListDir, onTestCommand, onSearchFiles,
    onGenerateDiff, onApplyDiff, onCreateFile;
  rewrite (HasPrefix_append p rest), (TrimPrefix_append p rest);
  decide_prefixes;
  change (String.eqb (p ++ rest) "") with false;
  reflexivity.

(** X13.  For the six directives with one argument the handler gets the
    trimmed remainder of the trimmed line after the prefix, [toolCount] goes
    up by one, and the transcript gets the directive's label and the
    handler's answer ([run] writes both). *)
Theorem directive_argument_is_trimmed_remainder
    (World : Type) (handler : call -> World -> string * World)
    (lines : list string) (st : scanner World) (l rest : string) :
  (TrimSpace l = "RUN_COMMAND:" ++ rest ->
   scanLine World handler lines st l
   = run World handler (count World st) (ExecuteCommand (TrimSpace rest))
         ("RUN_COMMAND: " ++ TrimSpace rest)) /\
  (TrimSpace l = "READ_FILE:" ++ rest ->
   scanLine World handler lines st l
   = run World handler (count World st) (ReadFileContent (TrimSpace rest))
         ("READ_FILE: " ++ TrimSpace rest)) /\
  (TrimSpace l = "LIST_DIR:" ++ rest ->
   scanLine World handler lines st l
   = run World handler (count World st) (ListDirectory (TrimSpace rest))
         ("LIST_DIR: " ++ TrimSpace rest)) /\
  (TrimSpace l = "TEST_COMMAND:" ++ rest ->
   scanLine World handler lines st l
   = run World handler (count World st) (TestCommand (TrimSpace rest))
         ("TEST_COMMAND: " ++ TrimSpace rest)) /\
  (TrimSpace l = "GENERATE_DIFF:" ++ rest ->
   scanLine World handler lines st l
   = run World handler (count World st) (GenerateDiff (TrimSpace rest))
         ("GENERATE_DIFF: " ++ TrimSpace rest)) /\
  (TrimSpace l = "APPLY_DIFF:" ++ rest ->
   scanLine World handler lines st l
   = run World handler (count World st) (ApplyDiffTool (TrimSpace rest))
         "APPLY_DIFF: Applied").
Proof.
  repeat split; intros H.
  - single_argument "RUN_COMMAND:" rest H.
  - single_argument "READ_FILE:" rest H.
  - single_argument "LIST_DIR:" rest H.
  - single_argument "TEST_COMMAND:" rest H.
  - single_argument "GENERATE_DIFF:" rest H.
  - single_argument "APPLY_DIFF:" rest H.
Qed.

Lemma directive_argument_is_trimmed_remainder_witness :
  scanLine unit silent [] (mkScanner unit 0 banner tt []) "  READ_FILE:   main.go  "
  = run unit silent (count unit (mkScanner unit 0 banner tt []))
        (ReadFileContent (TrimSpace "   main.go")) ("READ_FILE: " ++ TrimSpace "   main.go").
Proof.
  apply (directive_argument_is_trimmed_remainder unit silent []
           (mkScanner unit 0 banner tt []) "  READ_FILE:   main.go  " "   main.go").
  vm_compute. reflexivity.
Defined.

(** ** What [applyDiff] leaves alone *)

Section KeepFacts.

Variable growslice : nat -> nat -> nat.
Variable filepathJoin : string -> string -> string.

Lemma applyFileChange_keeps change repoPath fs :
  kept_by fs (fst (applyFileChange growslice filepathJoin change repoPath fs))
          [filepathJoin repoPath (FilePath change)].
Proof.
  unfold applyFileChange, ReadFile, WriteFile.
  set (path := filepathJoin repoPath (FilePath change)).
  assert (Hsame : kept_by fs fs [path]) by (repeat split; auto).
  destruct (files fs !! path) as [content|] eqn:Hread; [|exact Hsame].
  destruct (patch growslice content change) as [newContent|]; [|exact Hsame].
  case_bool_decide as Hro; [exact Hsame|].
  unfold kept_by. cbn [fst files readOnly].
  repeat split.
  - rewrite dom_insert_L.
    apply subseteq_union_1_L, singleton_subseteq_l, elem_of_dom. eauto.
  - intros q Hq. apply lookup_insert_ne. intros <-. contradiction.
  - intros q Hq. apply lookup_insert_ne. intros <-. apply Hq. now left.
Qed.

Lemma applyChanges_keeps cs repoPath : forall fs,
  kept_by fs (fst (applyChanges growslice filepathJoin cs repoPath fs))
          (targets filepathJoin repoPath cs).
Proof.
  induction cs as [|c cs IH]; intros fs; cbn [applyChanges targets map].
  - repeat split; auto.
  - pose proof (applyFileChange_keeps c repoPath fs) as (Hd & Hr & Hq & Ho).
    destruct (applyFileChange growslice filepathJoin c repoPath fs)
      as [fs1 [[err|]|]]; cbn [fst] in *.
    + repeat split; auto. intros q Hn. apply Ho. intros [<-|[]]. apply Hn. now left.
    + destruct (IH fs1) as (Hd' & Hr' & Hq' & Ho').
      repeat split.
      * now rewrite Hd'.
      * now rewrite Hr'.
      * intros q Hin. rewrite Hq' by (now rewrite Hr). now apply Hq.
      * intros q Hn. rewrite Ho'.
        -- apply Ho. intros [<-|[]]. apply Hn. now left.
        -- intros Hin. apply Hn. now right.
    + repeat split; auto. intros q Hn. apply Ho. intros [<-|[]]. apply Hn. now left.
Qed.

End KeepFacts.

(** X14.  Whatever the diff and however [applyDiff] ends (nil, an error or a
    panic), it creates and deletes no file, it changes no file that is
    write-protected, and it changes no file other than those the parsed
    changes name. *)
Theorem applyDiff_keeps_other_files
    (growslice : nat -> nat -> nat) (filepathJoin : string -> string -> string)
    (d repoPath : string) (fs : fsys) :
  let fs' := fst (applyDiff growslice filepathJoin d repoPath fs) in
  dom (files fs') = dom (files fs) /\
  readOnly fs' = readOnly fs /\
  (forall q, q ∈ readOnly fs -> files fs' !! q = files fs !! q) /\
  (forall q,
      ~ In q (targets filepathJoin repoPath (fst (parseDiff d))) ->
      files fs' !! q = files fs !! q).
Proof.
  cbv zeta. unfold applyDiff.
  destruct (parseDiff d) as [cs [err|]]; cbn [fst].
  - repeat split; auto.
  - apply applyChanges_keeps.
Qed.

Lemma applyDiff_keeps_other_files_witness :
  files (fst (applyDiff exactFit slashJoin "--- a/a.txt" "repo" twoFiles)) !! "repo/c.txt"
  = files twoFiles !! "repo/c.txt".
Proof.
  pose proof (applyDiff_keeps_other_files exactFit slashJoin "--- a/a.txt" "repo" twoFiles)
    as H.
  cbv zeta in H. destruct H as (_ & _ & _ & H).
  apply H. vm_compute. intros [E|[]]. discriminate E.
Defined.

(** ** [applyDiffTool] *)

(** X15.  [applyDiffTool] answers with the success text exactly when
    [applyDiff] returned nil.  It does so for every text without a [--- a/]
    line, with no file touched.  When the first change names a file that
    does not exist, the answer is the read failure for that file and no file
    is touched, whatever the hunks are. *)
Theorem applyDiffTool_report
    (growslice : nat -> nat -> nat) (filepathJoin : string -> string -> string)
    (d repoPath : string) (fs : fsys) :
  (forall fs' text,
      applyDiffTool growslice filepathJoin d repoPath fs = (fs', Ok text) ->
      (text = "Diff applied successfully to the repository" <->
       applyDiff growslice filepathJoin d repoPath fs = (fs', Ok None))) /\
  (forallb (fun l => negb (isOldFileLine l)) (Split d newline) = true ->
   applyDiffTool growslice filepathJoin d repoPath fs
   = (fs, Ok "Diff applied successfully to the repository")) /\
  (forall c rest,
      parseDiff d = (c :: rest, None) ->
      files fs !! filepathJoin repoPath (FilePath c) = None ->
      applyDiffTool growslice filepathJoin d repoPath fs
      = (fs, Ok ("Error applying diff: failed to apply change to " ++ FilePath c
                 ++ ": failed to read file: open "
                 ++ filepathJoin repoPath (FilePath c)
                 ++ ": no such file or directory"))).
Proof.
  split; [|split].
  - intros fs' text. unfold applyDiffTool.
    destruct (applyDiff growslice filepathJoin d repoPath fs) as [fs1 [[err|]|]].
    + intros [= <- <-]. split; [discriminate|intros [= ]].
    + intros [= <- <-]. split; reflexivity.
    + discriminate.
  - intros Hnone. unfold applyDiffTool, applyDiff.
    destruct (lines_before_first_file_header_ignored d) as [_ Hparse].
    now rewrite (Hparse Hnone).
  - intros c rest Hparse Hmissing. unfold applyDiffTool, applyDiff.
    rewrite Hparse. cbn [applyChanges]. unfold applyFileChange, ReadFile.
    rewrite Hmissing. reflexivity.
Qed.

Lemma applyDiffTool_report_witness :
  applyDiffTool exactFit slashJoin "please fix the bug" "repo" twoFiles
  = (twoFiles, Ok "Diff applied successfully to the repository") /\
  applyDiffTool exactFit slashJoin "--- a/nope.txt" "repo" twoFiles
  = (twoFiles,
     Ok ("Error applying diff: failed to apply change to " ++ "nope.txt"
         ++ ": failed to read file: open " ++ slashJoin "repo" "nope.txt"
         ++ ": no such file or directory")).
Proof.
  split.
  - apply (applyDiffTool_report exactFit slashJoin "please fix the bug" "repo" twoFiles).
    vm_compute. reflexivity.
  - destruct (applyDiffTool_report exactFit slashJoin "--- a/nope.txt" "repo" twoFiles)
      as (_ & _ & Hmissing).
    apply (Hmissing (mkDiffChange "nope.txt" []) []).
    + vm_compute. reflexivity.
    + vm_compute. reflexivity.
Defined.

(** ** Exclusion patterns *)

Lemma ShouldExclude_dead path pattern rest :
  livePattern pattern = false ->
  ShouldExclude path (pattern :: rest) = ShouldExclude path rest.
Proof.
  unfold livePattern. cbn [ShouldExclude].
  destruct (String.eqb pattern ""); [reflexivity|].
  destruct (Contains pattern "*"); [|discriminate].
  destruct (HasSuffix pattern "*"); [discriminate|reflexivity].
Qed.

Lemma ShouldExclude_live path : forall patterns,
  ShouldExclude path patterns = ShouldExclude path (List.filter livePattern patterns).
Proof.
  induction patterns as [|pattern rest IH]; [reflexivity|].
  cbn [List.filter]. destruct (livePattern pattern) eqn:Hlive.
  - cbn [ShouldExclude]. now rewrite IH.
  - now rewrite ShouldExclude_dead.
Qed.

(** X16.  A pattern with a star anywhere but at its end never excludes a
    path: [ShouldExclude] answers as if such patterns (and empty ones) were
    not in the list.  With the default list no file is excluded for its
    extension: only [.git], [.jj], [node_modules], [vendor] and [.crush]
    count. *)
Theorem star_patterns_are_inert (path : string) :
  (forall patterns,
      ShouldExclude path patterns
      = ShouldExclude path (List.filter livePattern patterns)) /\
  ShouldExclude path defaultExclude
  = ShouldExclude path [".git"; ".jj"; "node_modules"; "vendor"; ".crush"].
Proof.
  split; [apply ShouldExclude_live|].
  rewrite ShouldExclude_live. reflexivity.
Qed.

Lemma Contains_inside a pattern b :
  pattern <> "" -> Contains (a ++ pattern ++ b) pattern = true.
Proof.
  intros Hp. induction a as [|c a IH].
  - change ("" ++ pattern ++ b) with (pattern ++ b).
    destruct pattern as [|c pattern]; [contradiction|].
    change (String c pattern ++ b) with (String c (pattern ++ b)).
    cbn [Contains].
    change (String c (pattern ++ b)) with (String c pattern ++ b).
    now rewrite HasPrefix_append.
  - change (String c a ++ pattern ++ b) with (String c (a ++ pattern ++ b)).
    cbn [Contains]. rewrite IH. apply orb_true_r.
Qed.

Lemma ShouldExclude_app path ps : forall qs,
  ShouldExclude path (ps ++ qs) = ShouldExclude path ps || ShouldExclude path qs.
Proof.
  induction ps as [|p ps IH]; intros qs; [reflexivity|].
  cbn [app ShouldExclude]. rewrite IH.
  destruct (String.eqb p ""); [reflexivity|].
  destruct (Contains p "*").
  - destruct (HasSuffix p "*"); [|reflexivity].
    now destruct (HasPrefix path (TrimSuffix p "*")).
  - now destruct (Contains path p).
Qed.

(** X17.  A pattern without a star excludes every path in which it occurs
    anywhere, not only as a whole path element; a pattern [prefix*] excludes
    every path that starts with the prefix (so [*] excludes all); and a list
    excludes what one of its parts excludes. *)
Theorem exclusion_is_by_substring (path : string) :
  (forall a pattern b rest,
      pattern <> "" -> Contains pattern "*" = false ->
      path = a ++ pattern ++ b ->
      ShouldExclude path (pattern :: rest) = true) /\
  (forall prefix tail rest,
      path = prefix ++ tail ->
      ShouldExclude path ((prefix ++ "*") :: rest) = true) /\
  (forall ps qs,
      ShouldExclude path (ps ++ qs) = ShouldExclude path ps || ShouldExclude path qs).
Proof.
  split; [|split].
  - intros a pattern b rest Hne Hstar ->. cbn [ShouldExclude].
    destruct (String.eqb_spec pattern ""); [contradiction|].
    now rewrite Hstar, Contains_inside.
  - intros prefix tail rest ->. cbn [ShouldExclude].
    assert (Hnonempty : String.eqb (prefix ++ "*") "" = false)
      by (destruct prefix; reflexivity).
    rewrite Hnonempty.
    assert (Hstar : Contains (prefix ++ "*") "*" = true).
    { clear. induction prefix as [|c prefix IH]; [reflexivity|].
      change (String c prefix ++ "*") with (String c (prefix ++ "*")).
      cbn [Contains]. rewrite IH. apply orb_true_r. }
    rewrite Hstar, HasSuffix_append. cbv zeta.
    assert (Htrim : TrimSuffix (prefix ++ "*") "*" = prefix).
    { unfold TrimSuffix. rewrite HasSuffix_append, length_append.
      replace (String.length prefix + String.length "*" - String.length "*")%nat
        with (String.length prefix) by (simpl; lia).
      apply takeBytes_append. }
    now rewrite Htrim, HasPrefix_append.
  - apply ShouldExclude_app.
Qed.

Lemma exclusion_is_by_substring_witness :
  ShouldExclude "src/vendors.go" ["vendor"] = true /\
  ShouldExclude "build/out.o" ["build*"] = true.
Proof.
  split.
  - apply (exclusion_is_by_substring "src/vendors.go") with (a := "src/") (b := "s.go");
      [discriminate|reflexivity|reflexivity].
  - apply (exclusion_is_by_substring "build/out.o") with (prefix := "build") (tail := "/out.o").
    reflexivity.
Defined.

(** ** Numbers in hunk headers *)

Lemma valueOf_bound s :
  allDigits s = true -> 0 <= valueOf s < 10 ^ Z.of_nat (String.length s).
Proof.
  induction s as [|c s IH]; simpl valueOf; cbn [allDigits String.length].
  - intros _. simpl. lia.
  - intros H. apply andb_prop in H as [Hc Hs]. specialize (IH Hs).
    pose proof (digit_value c Hc).
    rewrite Nat2Z.inj_succ, Z.pow_succ_r by lia. nia.
Qed.

Lemma atoiLoop_value s : forall n,
  allDigits s = true ->
  0 <= n ->
  n * 10 ^ Z.of_nat (String.length s) + valueOf s <= MaxInt ->
  atoiLoop s n = Some (n * 10 ^ Z.of_nat (String.length s) + valueOf s).
Proof.
  induction s as [|c s IH]; intros n Hs Hn Hfit.
  - simpl. f_equal. lia.
  - cbn [allDigits] in Hs. apply andb_prop in Hs as [Hc Hs].
    pose proof (digit_value c Hc) as Hd.
    pose proof (valueOf_bound s Hs) as Hv.
    cbn [atoiLoop]. rewrite byte_digit_test, Hc. cbn [negb].
    rewrite Z.mod_small by lia.
    simpl valueOf in *. cbn [String.length] in *.
    rewrite Nat2Z.inj_succ, Z.pow_succ_r in * by lia.
    assert (Hpow : 1 <= 10 ^ Z.of_nat (String.length s))
      by (pose proof (Z.pow_pos_nonneg 10 (Z.of_nat (String.length s))); lia).
    rewrite wrap_id by (unfold inRange, MinInt, MaxInt in *; nia).
    rewrite IH; [f_equal; ring|exact Hs|lia|].
    unfold MaxInt in *. nia.
Qed.

Lemma Atoi_digits s :
  allDigits s = true ->
  (0 < String.length s < 19)%nat ->
  Atoi s = (valueOf s, None).
Proof.
  intros Hs Hlen. unfold Atoi.
  destruct (Z.ltb_spec 0 (Z.of_nat (String.length s))); [|lia].
  destruct (Z.ltb_spec (Z.of_nat (String.length s)) 19); [|lia].
  cbn [andb]. destruct s as [|c rest]; [simpl in Hlen; lia|].
  assert (Hnosign : isSign c = false).
  { cbn [allDigits] in Hs. apply andb_prop in Hs as [Hc _].
    pose proof (digit_value c Hc). unfold isSign.
    destruct (Z.eqb_spec (byte c) 43); [lia|].
    destruct (Z.eqb_spec (byte c) 45); [lia|reflexivity]. }
  assert (Hnominus : isMinus c = false).
  { unfold isSign, isMinus in *. now apply orb_false_elim in Hnosign as [_ ->]. }
  rewrite Hnosign, Hnominus. cbn [andb].
  pose proof (valueOf_bound _ Hs) as Hv.
  assert (Hpow : 10 ^ Z.of_nat (String.length (String c rest)) <= 10 ^ 18)
    by (apply Z.pow_le_mono_r; lia).
  change (10 ^ 18) with 1000000000000000000 in Hpow.
  rewrite atoiLoop_value; [f_equal|exact Hs|lia|unfold MaxInt; simpl Z.pow; lia].
Qed.

Lemma append_empty (s : string) : s ++ "" = s.
Proof.
  induction s as [|c s IH]; [reflexivity|].
  change (String c (s ++ "") = String c s). now rewrite IH.
Qed.

Lemma append_assoc (a b c : string) : (a ++ b) ++ c = a ++ b ++ c.
Proof.
  induction a as [|x a IH]; [reflexivity|].
  change (String x ((a ++ b) ++ c) = String x (a ++ b ++ c)). now rewrite IH.
Qed.

Lemma Count_digits s c : allDigits s = true -> isDigit c = false -> Count s c = 0%nat.
Proof.
  intros Hs Hc. induction s as [|d s IH]; [reflexivity|].
  cbn [allDigits Count] in *. apply andb_prop in Hs as [Hd Hs].
  destruct (Ascii.eqb_spec d c) as [->|_]; [congruence|]. auto.
Qed.

Lemma decimal_digits s :
  decimal s = true -> allDigits s = true /\ (0 < String.length s < 19)%nat.
Proof.
  unfold decimal. intros H. apply andb_prop in H as [H H3].
  apply andb_prop in H as [H1 H2].
  apply Nat.ltb_lt in H2, H3. auto.
Qed.

Lemma parseRange_pair a b :
  decimal a = true -> decimal b = true ->
  parseRange (a ++ "," ++ b) = (valueOf a, valueOf b).
Proof.
  intros Ha Hb. apply decimal_digits in Ha as [Ha Hla], Hb as [Hb Hlb].
  unfold parseRange. change ("," ++ b) with (String comma b).
  rewrite Split_first by now apply Count_digits.
  rewrite Split_absent by now apply Count_digits.
  cbn [length nth Nat.leb]. now rewrite !Atoi_digits.
Qed.

(** X18.  [parseRange] reads decimal numbers by position: for strings of 1
    to 18 digits, [start] gives (start, 1) and [start,count] gives
    (start, count), each string standing for the number it denotes. *)
Theorem parseRange_reads_decimal (start count : string) :
  decimal start = true ->
  decimal count = true ->
  parseRange start = (valueOf start, 1) /\
  parseRange (start ++ "," ++ count) = (valueOf start, valueOf count).
Proof.
  intros Hs Hc. split; [|now apply parseRange_pair].
  apply decimal_digits in Hs as [Hs Hl].
  unfold parseRange. rewrite Split_absent by now apply Count_digits.
  cbn [length nth Nat.leb]. now rewrite Atoi_digits.
Qed.

Lemma parseRange_reads_decimal_witness :
  parseRange "120" = (120, 1) /\ parseRange ("120" ++ "," ++ "007") = (120, 7).
Proof.
  apply (parseRange_reads_decimal "120" "007"); reflexivity.
Defined.

(** X19.  A line that reads, after trimming, [@@ -a1,a2 +b1,b2] with four
    decimal numbers, alone or followed by a blank and any text, opens a hunk
    with exactly these numbers and no lines; the closing [@@] is not looked
    at.  The hunk that was open, if any, is stored in the open change. *)
Theorem hunk_header_opens_hunk (st : parser) (l a1 a2 b1 b2 tail : string) :
  decimal a1 = true -> decimal a2 = true ->
  decimal b1 = true -> decimal b2 = true ->
  tail = "" \/ HasPrefix tail " " = true ->
  TrimSpace l = hunkHeader a1 a2 b1 b2 tail ->
  parseLine st l
  = inl (mkParser (changes st) (stored st)
           (Some (mkDiffHunk (valueOf a1) (valueOf a2) (valueOf b1) (valueOf b2) []))).
Proof.
  intros Ha1 Ha2 Hb1 Hb2 Htail Ht.
  pose proof (parseRange_pair a1 a2 Ha1 Ha2) as Hold.
  pose proof (parseRange_pair b1 b2 Hb1 Hb2) as Hnew.
  assert (Hblank : forall x y, decimal x = true -> decimal y = true ->
            forall sign, Ascii.eqb sign blank = false ->
            Count (String sign (x ++ "," ++ y)) blank = 0%nat).
  { intros x y Hx Hy sign Hsign.
    apply decimal_digits in Hx as [Hx _], Hy as [Hy _].
    cbn [Count]. rewrite Hsign.
    change ("," ++ y) with (String comma y).
    rewrite Count_append. cbn [Count]. change (Ascii.eqb comma blank) with false.
    cbv iota. now rewrite !Count_digits. }
  unfold parseLine. cbv zeta. rewrite Ht. unfold hunkHeader.
  set (old := a1 ++ "," ++ a2) in *. set (new := b1 ++ "," ++ b2) in *.
  decide_prefixes.
  change (String.eqb ("@@" ++ " " ++ ("-" ++ old) ++ " " ++ ("+" ++ new) ++ tail) "")
    with false.
  cbv iota.
  assert (Hsplit : exists more,
            Split ("@@" ++ " " ++ ("-" ++ old) ++ " " ++ ("+" ++ new) ++ tail) blank
            = "@@" :: ("-" ++ old) :: ("+" ++ new) :: more).
  { change ("@@" ++ " " ++ ("-" ++ old) ++ " " ++ ("+" ++ new) ++ tail)
      with ("@@" ++ String blank (("-" ++ old) ++ String blank (("+" ++ new) ++ tail))).
    rewrite Split_first by reflexivity.
    rewrite Split_first by (apply (Hblank a1 a2); auto).
    destruct Htail as [->|Htail].
    - exists []. rewrite append_empty. f_equal. f_equal.
      apply Split_absent. apply (Hblank b1 b2); auto.
    - apply HasPrefix_split in Htail.
      change (" " ++ skipBytes (String.length " ") tail)
        with (String blank (skipBytes 1 tail)) in Htail.
      rewrite Htail. rewrite Split_first by (apply (Hblank b1 b2); auto).
      eauto. }
  destruct Hsplit as [more ->].
  cbn [length Nat.ltb Nat.leb nth].
  rewrite (TrimPrefix_append "-" old), (TrimPrefix_append "+" new).
  rewrite Hold, Hnew. reflexivity.
Qed.

Lemma hunk_header_opens_hunk_witness :
  parseLine (mkParser [] (Some (mkDiffChange "f.txt" [])) None)
            "  @@ -12,3 +14,5 @@ func main() {"
  = inl (mkParser [] (Some (mkDiffChange "f.txt" [])) (Some (mkDiffHunk 12 3 14 5 []))).
Proof.
  apply (hunk_header_opens_hunk (mkParser [] (Some (mkDiffChange "f.txt" [])) None)
           "  @@ -12,3 +14,5 @@ func main() {" "12" "3" "14" "5" " @@ func main() {");
    try reflexivity.
  right. reflexivity.
Defined.

(** ** A hunk header without numbers *)

Lemma genSplitLoop_length n sep : forall s,
  (Count s sep <= n)%nat -> length (genSplitLoop n s sep) = S (Count s sep).
Proof.
  induction n as [|n IH]; intros s Hn; cbn [genSplitLoop].
  - simpl. lia.
  - destruct (cut s sep) as [[a b]|] eqn:Hcut.
    + apply cut_found in Hcut as [-> Ha].
      rewrite Count_append in *. cbn [Count] in *.
      rewrite Ascii.eqb_refl in *. cbn [length]. rewrite IH by lia. lia.
    + apply cut_none_absent in Hcut. rewrite Hcut. reflexivity.
Qed.

Lemma Split_length s sep : length (Split s sep) = S (Count s sep).
Proof. rewrite Split_genSplitLoop. now apply genSplitLoop_length. Qed.

Lemma genSplitLoop_last n sep l : forall d,
  Count d sep = n ->
  genSplitLoop (S n) (d ++ String sep l) sep = (genSplitLoop n d sep ++ [l])%list.
Proof.
  induction n as [|n IH]; intros d Hd.
  - cbn [genSplitLoop]. now rewrite cut_first.
  - cbn [genSplitLoop].
    destruct (cut d sep) as [[a b]|] eqn:Hcut.
    + apply cut_found in Hcut as [-> Ha].
      rewrite Count_append in Hd. cbn [Count] in Hd.
      rewrite Ascii.eqb_refl, Ha in Hd.
      rewrite append_assoc.
      change (String sep b ++ String sep l) with (String sep (b ++ String sep l)).
      rewrite cut_first by exact Ha.
      change ((a :: genSplitLoop n b sep) ++ [l])%list with (a :: (genSplitLoop n b sep ++ [l])%list).
      f_equal. apply IH. simpl in Hd. lia.
    + apply cut_none_absent in Hcut. congruence.
Qed.

Lemma Split_last d l sep :
  Count l sep = 0%nat -> Split (d ++ String sep l) sep = (Split d sep ++ [l])%list.
Proof.
  intros Hl. rewrite !Split_genSplitLoop, Count_append. cbn [Count].
  rewrite Ascii.eqb_refl, Hl.
  replace (Count d sep + 1)%nat with (S (Count d sep)) by lia.
  now apply genSplitLoop_last.
Qed.

Lemma short_header_line st c h l :
  currentChange st = Some c ->
  currentHunk st = Some h ->
  HasPrefix (TrimSpace l) "@@" = true ->
  (Count (TrimSpace l) blank < 2)%nat ->
  parseLine st l = inl (mkParser (changes st) (Some (addHunk c h)) (Some h)).
Proof.
  intros Hc Hh Hat Hblanks. unfold parseLine. cbv zeta.
  rewrite Hc, Hh, Split_length.
  destruct (Nat.ltb_spec (S (Count (TrimSpace l) blank)) 3); [|lia].
  rewrite Hat.
  apply HasPrefix_split in Hat.
  set (rest := skipBytes (String.length "@@") (TrimSpace l)) in Hat.
  clearbody rest. rewrite Hat.
  decide_prefixes.
  change (String.eqb ("@@" ++ rest) "") with false.
  reflexivity.
Qed.

(** X20.  A line that starts with [@@] and has fewer than two blanks opens
    no hunk.  If a hunk is open in an open change, the line stores that hunk
    in the change and leaves it open, so the hunk is stored a second time
    when it is closed: appending such a line to a diff doubles its last
    hunk. *)
Theorem short_hunk_header_doubles_open_hunk
    (d l : string) (st : parser) (c : DiffChange) (h : DiffHunk) :
  parseLines parseStart (Split d newline) = inl st ->
  currentChange st = Some c ->
  currentHunk st = Some h ->
  HasPrefix (TrimSpace l) "@@" = true ->
  (Count (TrimSpace l) blank < 2)%nat ->
  Count l newline = 0%nat ->
  parseDiff d
  = ((changes st ++ [mkDiffChange (FilePath c) (Hunks c ++ [h])%list])%list, None) /\
  parseDiff (d ++ LF ++ l)
  = ((changes st ++ [mkDiffChange (FilePath c) (Hunks c ++ [h; h])%list])%list, None).
Proof.
  intros Hd Hc Hh Hat Hblanks Hline. split.
  - unfold parseDiff. rewrite Hd. unfold flush. rewrite Hc, Hh. reflexivity.
  - unfold parseDiff. change (LF ++ l) with (String newline l).
    rewrite Split_last by exact Hline.
    rewrite parseLines_app, Hd. cbn [parseLines].
    rewrite (short_header_line st c h l Hc Hh Hat Hblanks).
    unfold flush, addHunk. cbn [currentChange currentHunk changes FilePath Hunks].
    now rewrite <- app_assoc.
Qed.

Lemma short_hunk_header_doubles_open_hunk_witness :
  parseDiff openHunkDiff
  = ([mkDiffChange "f.txt" [mkDiffHunk 1 0 1 1 [mkDiffLine "+" "x" 0]]], None) /\
  parseDiff (openHunkDiff ++ LF ++ "@@")
  = ([mkDiffChange "f.txt" [mkDiffHunk 1 0 1 1 [mkDiffLine "+" "x" 0];
                            mkDiffHunk 1 0 1 1 [mkDiffLine "+" "x" 0]]], None).
Proof.
  apply (short_hunk_header_doubles_open_hunk openHunkDiff "@@"
           (mkParser [] (Some (mkDiffChange "f.txt" []))
                     (Some (mkDiffHunk 1 0 1 1 [mkDiffLine "+" "x" 0])))
           (mkDiffChange "f.txt" []) (mkDiffHunk 1 0 1 1 [mkDiffLine "+" "x" 0]));
    try reflexivity.
  vm_compute. lia.
Defined.
